(** * socketio: the ACK correlator, the room/session registry and the
      server facade, embedded from ack.go, protocol and server sources.

    Go maps are finite maps (stdpp [gmap]), Go sets ([map[K]struct{}]) are
    [gset]s, Go's [int] is a [Z] wrapped to the machine word, pointers are
    addresses into an explicit store. *)

From Stdlib Require Import ZArith Lia.
From Stdlib.Strings Require Ascii String Byte.
From stdpp Require Import gmap strings list fin_maps pretty.

#[local] Set Warnings "-clear-no-such-hyp".

Local Open Scope Z_scope.

(** ** Go's [int] *)

(** [int] on 64-bit targets; arithmetic on it wraps around in two's
    complement. *)
Definition intSize : Z := 64.
Definition maxInt : Z := 2 ^ (intSize - 1) - 1.
Definition minInt : Z := - 2 ^ (intSize - 1).

Definition wrap_int (x : Z) : Z :=
  (x + 2 ^ (intSize - 1)) mod 2 ^ intSize - 2 ^ (intSize - 1).

(** ** Errors: the [errors.New] values of ack.go and of the server file *)

Inductive error : Type :=
  | ErrorWaiterNotFound
  | ErrorServerNotSet
  | ErrorConnectionNotFound.

(** ** ack.go *)

(** A [chan interface{}] value is a reference; [None] is the nil channel. *)
Abbreviation waiter := (option positive).

Record ackProcessor : Type := mk_ackProcessor {
  counter : Z;
  resultWaitersMap : gmap Z waiter
}.

(** The zero value of the struct: what a freshly declared [ackProcessor]
    holds. *)
Definition ackProcessor_zero : ackProcessor :=
  {| counter := 0; resultWaitersMap := ∅ |}.

(** [a.counter++; return a.counter] *)
Definition getNextId (a : ackProcessor) : Z * ackProcessor :=
  let a' := {| counter := wrap_int (counter a + 1);
               resultWaitersMap := resultWaitersMap a |} in
  (counter a', a').

Definition addWaiter (id : Z) (w : waiter) (a : ackProcessor) : ackProcessor :=
  {| counter := counter a;
     resultWaitersMap := <[id := w]> (resultWaitersMap a) |}.

Definition removeWaiter (id : Z) (a : ackProcessor) : ackProcessor :=
  {| counter := counter a;
     resultWaitersMap := delete id (resultWaitersMap a) |}.

(** Returns the pair [(waiter, err)]; a nil error is [None]. *)
Definition getWaiter (id : Z) (a : ackProcessor) : waiter * option error :=
  match resultWaitersMap a !! id with
  | Some w => (w, None)
  | None => (None, Some ErrorWaiterNotFound)
  end.

(** The processor after [n] successive [getNextId] calls on the zero value,
    and the value the [n]-th call (counted from 1) returns. *)
Definition after_calls (n : nat) : ackProcessor :=
  Nat.iter n (λ a, (getNextId a).2) ackProcessor_zero.

Definition nth_call (n : nat) : Z := (getNextId (after_calls (pred n))).1.

(** Calls on the correlator, for histories of registrations. *)
Inductive ack_call : Type :=
  | CallNextId
  | CallAdd (id : Z) (w : waiter)
  | CallRemove (id : Z)
  | CallGet (id : Z).

Definition ack_step (a : ackProcessor) (c : ack_call) : ackProcessor :=
  match c with
  | CallNextId => (getNextId a).2
  | CallAdd id w => addWaiter id w a
  | CallRemove id => removeWaiter id a
  | CallGet _ => a
  end.

Definition ack_run (cs : list ack_call) : ackProcessor :=
  foldl ack_step ackProcessor_zero cs.

Definition registers (id : Z) (c : ack_call) : Prop :=
  ∃ w, c = CallAdd id w.

(** ** Values carried in [interface{}] and handed to the JSON encoder *)

#[local] Set Warnings "-register-all".

Inductive Value : Type :=
  | VNil
  | VString (s : string)
  | VInt (n : Z)
  | VList (vs : list Value)
  | VStruct (fields : list (string * Value)).

(** ** package protocol *)

Module protocol.

Definition CONNECT : Z := 0.
Definition DISCONNECT : Z := 1.
Definition EVENT : Z := 2.
Definition ACK : Z := 3.
Definition CONNECT_ERROR : Z := 4.
Definition BINARY_EVENT : Z := 5.
Definition BINARY_ACK : Z := 6.

Definition DefaultNsp : string := "/".

Definition OpenMsg : string := "0".
Definition CloseMsg : string := "1".
Definition PingMsg : string := "2".
Definition PongMsg : string := "3".
Definition CommonMsg : string := "4".
Definition UpgradeMsg : string := "5".

(** The field [Type] is spelled [Type_]. *)
Record MsgPack : Type := mk_MsgPack {
  Type_ : Z;
  Data : Value;
  Nsp : string;
  Id : Z
}.

End protocol.

(** ** The server: data *)

Abbreviation ChannelPtr := positive.
Abbreviation ServerPtr := positive.

Record Header : Type := mk_Header {
  Sid : string;
  Upgrades : list string;
  PingInterval : Z;
  PingTimeout : Z
}.

(** What travels on a channel's [out] queue: a pre-encoded frame or a
    [*protocol.MsgPack]. *)
Inductive OutItem : Type :=
  | Frame (s : string)
  | Pack (m : protocol.MsgPack).

(** [websocket.Transport], the one field read here. *)
Record Transport : Type := mk_Transport {
  BinaryMessage : bool
}.

(** Modelled from the spec: the [Channel] struct, declared outside the files
    at hand.  [server], [header] and [out] are the fields the server code
    reads and writes; [alive] is the spec's alive flag behind [IsAlive];
    [out] holds the items sent on the queue, oldest first. *)
Record Channel : Type := mk_Channel {
  server : option ServerPtr;
  header : Header;
  alive : bool;
  out : list OutItem
}.

Record Server : Type := mk_Server {
  headers : gmap string string;
  channels : gmap string (gset ChannelPtr);
  rooms : gmap ChannelPtr (gset string);
  sids : gmap string ChannelPtr;
  tr : Transport
}.

(** The heap: what each [*Channel] and each [*Server] points to. *)
Record Store : Type := mk_Store {
  chan_at : ChannelPtr → Channel;
  srv_at : ServerPtr → Server
}.

Definition set_srv (sp : ServerPtr) (s : Server) (σ : Store) : Store :=
  {| chan_at := chan_at σ;
     srv_at := λ p, if decide (p = sp) then s else srv_at σ p |}.

Definition set_chan (c : ChannelPtr) (ch : Channel) (σ : Store) : Store :=
  {| chan_at := λ p, if decide (p = c) then ch else chan_at σ p;
     srv_at := srv_at σ |}.

(** Modelled from the spec: [Channel.Id] and [Channel.IsAlive], declared
    with the [Channel] struct.  The session id is the sid of the open
    header; liveness is the alive flag. *)
Definition Channel_Id (c : ChannelPtr) (σ : Store) : string :=
  Sid (header (chan_at σ c)).

Definition Channel_IsAlive (c : ChannelPtr) (σ : Store) : bool :=
  alive (chan_at σ c).

(** A [go f(x)] statement: the goroutine it starts. *)
Inductive spawn : Type :=
  | GoEmit (cn : ChannelPtr) (method : string) (args : Value)
  | GoDeleteSid (c : ChannelPtr).

(** Go's operations on a map of sets. *)
Section map_of_sets.
Context `{Countable K, Countable A}.

(** [m[k][x] = struct{}{}], for a bucket [m[k]] that is there *)
Definition bucket_put (k : K) (x : A) (m : gmap K (gset A)) : gmap K (gset A) :=
  alter (λ b, {[x]} ∪ b) k m.

(** [delete(m[k], x)] *)
Definition bucket_delete (k : K) (x : A) (m : gmap K (gset A)) : gmap K (gset A) :=
  alter (λ b, b ∖ {[x]}) k m.

(** [m[k]], the nil map when [k] is absent *)
Definition bucket (k : K) (m : gmap K (gset A)) : gset A :=
  default ∅ (m !! k).
End map_of_sets.

Definition with_registry (cn : gmap string (gset ChannelPtr))
    (byRoom : gmap ChannelPtr (gset string)) (s : Server) : Server :=
  {| headers := headers s; channels := cn; rooms := byRoom;
     sids := sids s; tr := tr s |}.

Definition with_headers (h : gmap string string) (s : Server) : Server :=
  {| headers := h; channels := channels s; rooms := rooms s;
     sids := sids s; tr := tr s |}.

Definition with_sids (m : gmap string ChannelPtr) (s : Server) : Server :=
  {| headers := headers s; channels := channels s; rooms := rooms s;
     sids := m; tr := tr s |}.

(** ** The server: operations *)

Definition NewServer (t : Transport) : Server :=
  {| headers := ∅; channels := ∅; rooms := ∅; sids := ∅; tr := t |}.

Definition Channel_Join (c : ChannelPtr) (room : string) (σ : Store)
    : option error * Store :=
  match server (chan_at σ c) with
  | None => (Some ErrorServerNotSet, σ)
  | Some sp =>
      let s := srv_at σ sp in
      let cn := channels s in
      let cn := match cn !! room with
                | Some _ => cn
                | None => <[room := ∅]> cn
                end in
      let byRoom := rooms s in
      let byRoom := match byRoom !! c with
                    | Some _ => byRoom
                    | None => <[c := ∅]> byRoom
                    end in
      let cn := bucket_put room c cn in
      let byRoom := bucket_put c room byRoom in
      (None, set_srv sp (with_registry cn byRoom s) σ)
  end.

Definition Channel_Leave (c : ChannelPtr) (room : string) (σ : Store)
    : option error * Store :=
  match server (chan_at σ c) with
  | None => (Some ErrorServerNotSet, σ)
  | Some sp =>
      let s := srv_at σ sp in
      let cn := channels s in
      let cn := match cn !! room with
                | Some _ =>
                    let cn := bucket_delete room c cn in
                    if decide (size (bucket room cn) = 0%nat)
                    then delete room cn else cn
                | None => cn
                end in
      let byRoom := rooms s in
      let byRoom := match byRoom !! c with
                    | Some _ => bucket_delete c room byRoom
                    | None => byRoom
                    end in
      (None, set_srv sp (with_registry cn byRoom s) σ)
  end.

Definition Server_Amount (s : ServerPtr) (room : string) (σ : Store) : Z :=
  Z.of_nat (size (bucket room (channels (srv_at σ s)))).

Definition Channel_Amount (c : ChannelPtr) (room : string) (σ : Store) : Z :=
  match server (chan_at σ c) with
  | None => 0
  | Some sp => Server_Amount sp room σ
  end.

(** The slice is filled in the order the range loop visits the bucket. *)
Definition Server_List (s : ServerPtr) (room : string) (σ : Store)
    : list ChannelPtr :=
  match channels (srv_at σ s) !! room with
  | None => []
  | Some roomChannels => elements roomChannels
  end.

Definition Channel_List (c : ChannelPtr) (room : string) (σ : Store)
    : list ChannelPtr :=
  match server (chan_at σ c) with
  | None => []
  | Some sp => Server_List sp room σ
  end.

(** The broadcasts return the goroutines they start, one per pass of the
    range loop that reaches the [go] statement. *)
Definition Channel_BroadcastTo (c : ChannelPtr) (room method : string)
    (args : Value) (σ : Store) : list spawn :=
  match server (chan_at σ c) with
  | None => []
  | Some sp =>
      match channels (srv_at σ sp) !! room with
      | None => []
      | Some roomChannels =>
          (λ cn, GoEmit cn method args) <$>
            filter (λ cn, Channel_Id cn σ ≠ Channel_Id c σ
                          ∧ Channel_IsAlive cn σ = true)
                   (elements roomChannels)
      end
  end.

Definition Server_BroadcastTo (s : ServerPtr) (room method : string)
    (args : Value) (σ : Store) : list spawn :=
  match channels (srv_at σ s) !! room with
  | None => []
  | Some roomChannels =>
      (λ cn, GoEmit cn method args) <$>
        filter (λ cn, Channel_IsAlive cn σ = true) (elements roomChannels)
  end.

Definition Server_BroadcastToAll (s : ServerPtr) (method : string)
    (args : Value) (σ : Store) : list spawn :=
  (λ cn, GoEmit cn method args) <$>
    filter (λ cn, Channel_IsAlive cn σ = true)
           ((map_to_list (sids (srv_at σ s))).*2).

(** One pass of the loop of [onDisconnectCleanup].  [curRoom] is the very
    map held in [cn[room]], so deleting from it updates the bucket. *)
Definition cleanup_room (c : ChannelPtr)
    (cn : gmap string (gset ChannelPtr)) (room : string)
    : gmap string (gset ChannelPtr) :=
  match cn !! room with
  | Some _ =>
      let cn := bucket_delete room c cn in
      if decide (size (bucket room cn) = 0%nat) then delete room cn else cn
  | None => cn
  end.

(** [None] is the nil-pointer panic of [c.server.channelsLock] on a channel
    without a server. *)
Definition onDisconnectCleanup (c : ChannelPtr) (σ : Store)
    : option (list spawn * Store) :=
  match server (chan_at σ c) with
  | None => None
  | Some sp =>
      let s := srv_at σ sp in
      let cn := channels s in
      match rooms s !! c with
      | Some byRoom =>
          let cn := foldl (cleanup_room c) cn (elements byRoom) in
          Some ([GoDeleteSid c],
                set_srv sp (with_registry cn (delete c (rooms s)) s) σ)
      | None => Some ([GoDeleteSid c], σ)
      end
  end.

Definition deleteSid (c : ChannelPtr) (σ : Store) : option Store :=
  match server (chan_at σ c) with
  | None => None
  | Some sp =>
      let s := srv_at σ sp in
      Some (set_srv sp (with_sids (delete (Channel_Id c σ) (sids s)) s) σ)
  end.

Definition EnableCORS (s : ServerPtr) (domain : string) (σ : Store) : Store :=
  let srv := srv_at σ s in
  let h := <["Access-Control-Allow-Origin" := domain]> (headers srv) in
  let h := <["Access-Control-Allow-Credentials" := "true"]> h in
  set_srv s (with_headers h srv) σ.

Definition AddHeader (s : ServerPtr) (name value : string) (σ : Store) : Store :=
  let srv := srv_at σ s in
  set_srv s (with_headers (<[name := value]> (headers srv)) srv) σ.

(** [c.out <- item]: the item joins the queue.  A send on a full queue
    waits for the writer to make room; the store records the send once it
    has gone through. *)
Definition send (c : ChannelPtr) (item : OutItem) (σ : Store) : Store :=
  let ch := chan_at σ c in
  set_chan c {| server := server ch; header := header ch; alive := alive ch;
                out := out ch ++ [item] |} σ.

(** Modelled from the spec: the JSON names of the [Header] fields ([sid],
    [upgrades], [pingInterval], [pingTimeout]), declared with the struct. *)
Definition Header_value (h : Header) : Value :=
  VStruct [("sid", VString (Sid h));
           ("upgrades", VList (VString <$> Upgrades h));
           ("pingInterval", VInt (PingInterval h));
           ("pingTimeout", VInt (PingTimeout h))].

(** [struct { Sid string `json:"sid"` }{Sid: sid}] *)
Definition Sid_value (sid : string) : Value :=
  VStruct [("sid", VString sid)].

(** How a call ends: it returns, or it panics part-way; either way with the
    store as the call left it. *)
Inductive outcome : Type :=
  | Returned (σ : Store)
  | Panicked (σ : Store).

Section SendOpenSequence.

(** [utils.Json.Marshal], the JSON encoder: the text of a value, or [None]
    when it reports an error. *)
Variable Marshal : Value → option string.

Definition SendOpenSequence (s : ServerPtr) (c : ChannelPtr) (σ : Store)
    : outcome :=
  match Marshal (Header_value (header (chan_at σ c))) with
  | None => Panicked σ
  | Some jsonHdr =>
      let σ := send c (Frame (protocol.OpenMsg +:+ jsonHdr)) σ in
      if BinaryMessage (tr (srv_at σ s)) then
        Returned
          (send c (Pack {| protocol.Type_ := protocol.CONNECT;
                           protocol.Nsp := protocol.DefaultNsp;
                           protocol.Data := Sid_value (Channel_Id c σ);
                           protocol.Id := 0 |}) σ)
      else
        match Marshal (Sid_value (Channel_Id c σ)) with
        | None => Panicked σ
        | Some marshal =>
            Returned
              (send c (Frame ((protocol.CommonMsg +:+ protocol.OpenMsg)
                              +:+ marshal)) σ)
        end
  end.

End SendOpenSequence.

(** ** Histories of the room registry *)

(** The stores a server at [sp] can be in: it starts as [NewServer] made
    it, and then channels join, leave and are cleaned up, in any order and
    on any server.  Between the calls the channel objects may change
    ([SetupEventLoop] sets [c.server], a close clears the alive flag). *)
Inductive reachable (sp : ServerPtr) : Store → Prop :=
  | reach_NewServer σ t :
      srv_at σ sp = NewServer t → reachable sp σ
  | reach_Join σ c room :
      reachable sp σ → reachable sp (Channel_Join c room σ).2
  | reach_Leave σ c room :
      reachable sp σ → reachable sp (Channel_Leave c room σ).2
  | reach_Cleanup σ c gs σ' :
      reachable sp σ → onDisconnectCleanup c σ = Some (gs, σ') →
      reachable sp σ'
  | reach_channels σ h :
      reachable sp σ → reachable sp {| chan_at := h; srv_at := srv_at σ |}.

(** The two registry invariants, on one server. *)
Definition bimap (s : Server) : Prop :=
  ∀ (R : string) (C : ChannelPtr),
    C ∈ bucket R (channels s) ↔ R ∈ bucket C (rooms s).

Definition pruned (s : Server) : Prop :=
  ∀ (R : string) (b : gset ChannelPtr), channels s !! R = Some b → b ≠ ∅.

(** A JSON writer for values whose strings need no escaping. *)
Definition dquote : string := String (Ascii.ascii_of_nat 34) EmptyString.

Definition join_with (sep : string) (parts : list string) : string :=
  match parts with
  | [] => EmptyString
  | p :: ps => foldl (λ acc q, acc +:+ sep +:+ q) p ps
  end.

Fixpoint compact_json (v : Value) : string :=
  match v with
  | VNil => "null"
  | VString s => dquote +:+ s +:+ dquote
  | VInt n => pretty n
  | VList vs => "[" +:+ join_with "," (map compact_json vs) +:+ "]"
  | VStruct fields =>
      "{" +:+ join_with ","
                (map (λ kv, dquote +:+ kv.1 +:+ dquote +:+ ":"
                            +:+ compact_json kv.2) fields)
          +:+ "}"
  end.

(** ** The server: the sid registry, the counts and the transport *)

(** Returns the pair [(channel, err)]; the nil channel is [None]. *)
Definition GetChannel (s : ServerPtr) (sid : string) (σ : Store)
    : option ChannelPtr * option error :=
  match sids (srv_at σ s) !! sid with
  | Some c => (Some c, None)
  | None => (None, Some ErrorConnectionNotFound)
  end.

(** The goroutine of [go SchedulePing(c)]. *)
Inductive ping_spawn : Type :=
  | GoSchedulePing (c : ChannelPtr).

Section onConnectStore.

(** [c.conn.GetProtocol()], the protocol version the connection of a channel
    negotiated, and the constant [protocol.Protocol4]; both are declared
    outside the files at hand. *)
Variable GetProtocol : ChannelPtr → Z.
Variable Protocol4 : Z.

(** [None] is the nil-pointer panic of [c.server.sidsLock] on a channel
    without a server. *)
Definition onConnectStore (c : ChannelPtr) (σ : Store)
    : option (list ping_spawn * Store) :=
  match server (chan_at σ c) with
  | None => None
  | Some sp =>
      let s := srv_at σ sp in
      let σ' := set_srv sp (with_sids (<[Channel_Id c σ := c]> (sids s)) s) σ in
      Some (if decide (GetProtocol c = Protocol4) then [GoSchedulePing c]
            else [],
            σ')
  end.

End onConnectStore.

(** [int64(len(m))]: a length is a non-negative [int], which [int64]
    holds unchanged. *)
Definition AmountOfSids (s : ServerPtr) (σ : Store) : Z :=
  Z.of_nat (size (sids (srv_at σ s))).

Definition AmountOfRooms (s : ServerPtr) (σ : Store) : Z :=
  Z.of_nat (size (channels (srv_at σ s))).

Definition UpdateTransport (s : ServerPtr) (t : Transport) (σ : Store) : Store :=
  let srv := srv_at σ s in
  set_srv s {| headers := headers srv; channels := channels srv;
               rooms := rooms srv; sids := sids srv; tr := t |} σ.

(** ** Session ids *)

(** [base64.URLEncoding] of the standard library: the alphabet of RFC 4648
    for URLs and file names, with [=] padding. *)
Definition encodeURL : string :=
  "ABCDEFGHIJKLMNOPQRSTUVWXYZabcdefghijklmnopqrstuvwxyz0123456789-_".

(** [enc.encode[i]]; every index the encoder uses is masked to six bits. *)
Definition encode_at (i : N) : Ascii.ascii :=
  match String.get (N.to_nat i) encodeURL with
  | Some a => a
  | None => Ascii.zero
  end.

(** The encoder: three bytes make four characters; a last group of one or
    two bytes is padded. *)
Fixpoint base64_encode (src : list Byte.byte) : string :=
  match src with
  | [] => EmptyString
  | [a] =>
      let val := N.shiftl (Byte.to_N a) 16 in
      String (encode_at (N.land (N.shiftr val 18) 63))
        (String (encode_at (N.land (N.shiftr val 12) 63)) "==")
  | [a; b] =>
      let val := N.lor (N.shiftl (Byte.to_N a) 16) (N.shiftl (Byte.to_N b) 8) in
      String (encode_at (N.land (N.shiftr val 18) 63))
        (String (encode_at (N.land (N.shiftr val 12) 63))
           (String (encode_at (N.land (N.shiftr val 6) 63)) "="))
  | a :: b :: c :: rest =>
      let val := N.lor (N.lor (N.shiftl (Byte.to_N a) 16)
                              (N.shiftl (Byte.to_N b) 8)) (Byte.to_N c) in
      String (encode_at (N.land (N.shiftr val 18) 63))
        (String (encode_at (N.land (N.shiftr val 12) 63))
           (String (encode_at (N.land (N.shiftr val 6) 63))
              (String (encode_at (N.land val 63)) (base64_encode rest))))
  end.

Section generateNewId.

(** [md5.Sum] of the standard library, on the bytes of a string. *)
Variable md5_Sum : string → list Byte.byte.

(** The clock and the random source are inputs: [now] is what [%s] prints
    for [time.Now()], [r1] and [r2] are the two [rand.Uint32()] values.
    [None] is the panic of the slice [[:20]] on a shorter string. *)
Definition generateNewId (custom now : string) (r1 r2 : N) : option string :=
  let hash := custom +:+ " " +:+ now +:+ " " +:+ pretty r1 +:+ " "
              +:+ pretty r2 in
  let sum := md5_Sum hash in
  let buf := base64_encode sum in
  if decide (20 ≤ String.length buf)%nat then Some (String.substring 0 20 buf)
  else None.

End generateNewId.

(** The characters of [encodeURL]. *)
Definition url_safe (a : Ascii.ascii) : Prop :=
  a ∈ String.list_ascii_of_string encodeURL.

(** The store a call leaves behind, however it ends. *)
Definition store_of (o : outcome) : Store :=
  match o with
  | Returned σ | Panicked σ => σ
  end.

(** ** Histories of the sid registry *)

(** The stores a server at [sp] can be in when channels are stored on
    connection and their sids deleted after disconnection, in any order and
    on any server; [conn_frame] stands for every other step, which leaves
    the sids of the server and the headers of the channels alone. *)
Inductive connected (sp : ServerPtr) : Store → Prop :=
  | conn_NewServer σ t :
      srv_at σ sp = NewServer t → connected sp σ
  | conn_Store σ proto p4 c ps σ' :
      connected sp σ → onConnectStore proto p4 c σ = Some (ps, σ') →
      connected sp σ'
  | conn_deleteSid σ c σ' :
      connected sp σ → deleteSid c σ = Some σ' → connected sp σ'
  | conn_frame σ σ' :
      connected sp σ →
      sids (srv_at σ' sp) = sids (srv_at σ sp) →
      (∀ c, header (chan_at σ' c) = header (chan_at σ c)) →
      connected sp σ'.

(** ** Histories of the whole server *)

(** The calls embedded here that change the store. *)
Inductive call : Type :=
  | CallJoin (c : ChannelPtr) (room : string)
  | CallLeave (c : ChannelPtr) (room : string)
  | CallDisconnectCleanup (c : ChannelPtr)
  | CallDeleteSid (c : ChannelPtr)
  | CallConnectStore (proto : ChannelPtr → Z) (p4 : Z) (c : ChannelPtr)
  | CallEnableCORS (s : ServerPtr) (domain : string)
  | CallAddHeader (s : ServerPtr) (name value : string)
  | CallUpdateTransport (s : ServerPtr) (t : Transport)
  | CallSendOpenSequence (Marshal : Value → option string) (s : ServerPtr)
      (c : ChannelPtr).

(** The store after a call; a call that panics leaves the store as it was
    at the panic. *)
Definition after_call (σ : Store) (k : call) : Store :=
  match k with
  | CallJoin c room => (Channel_Join c room σ).2
  | CallLeave c room => (Channel_Leave c room σ).2
  | CallDisconnectCleanup c =>
      match onDisconnectCleanup c σ with
      | Some (_, σ') => σ'
      | None => σ
      end
  | CallDeleteSid c =>
      match deleteSid c σ with
      | Some σ' => σ'
      | None => σ
      end
  | CallConnectStore proto p4 c =>
      match onConnectStore proto p4 c σ with
      | Some (_, σ') => σ'
      | None => σ
      end
  | CallEnableCORS s domain => EnableCORS s domain σ
  | CallAddHeader s name value => AddHeader s name value σ
  | CallUpdateTransport s t => UpdateTransport s t σ
  | CallSendOpenSequence Marshal s c =>
      store_of (SendOpenSequence Marshal s c σ)
  end.

Definition run_calls (ks : list call) (σ : Store) : Store :=
  foldl after_call σ ks.

(** What a call may leave alone of the server at [sp]: its room registry;
    its sids together with the headers of the channels. *)
Definition keeps_registry (sp : ServerPtr) (σ σ' : Store) : Prop :=
  channels (srv_at σ' sp) = channels (srv_at σ sp)
  ∧ rooms (srv_at σ' sp) = rooms (srv_at σ sp).

Definition keeps_sids (sp : ServerPtr) (σ σ' : Store) : Prop :=
  sids (srv_at σ' sp) = sids (srv_at σ sp)
  ∧ ∀ c, header (chan_at σ' c) = header (chan_at σ c).

(** The invariant of the sid registry. *)
Definition sids_by_id (sp : ServerPtr) (σ : Store) : Prop :=
  ∀ sid c, sids (srv_at σ sp) !! sid = Some c → Channel_Id c σ = sid.

(** Calls on the correlator that leave the registration of [id] alone. *)
Definition keeps (id : Z) (c : ack_call) : Prop :=
  match c with
  | CallAdd id' _ | CallRemove id' => id' ≠ id
  | CallNextId | CallGet _ => True
  end.

(** ** A small configuration, for the examples *)

(** Channels 1 to 4 belong to server 1 and carry the sids [s1] to [s4];
    channel 4 is no longer alive; every other address is a channel without
    a server. *)
Definition sample_channel (p : ChannelPtr) : Channel :=
  {| server := if decide (p < 5)%positive then Some 1%positive else None;
     header := {| Sid := "s" +:+ pretty (Npos p); Upgrades := [];
                  PingInterval := 25000; PingTimeout := 20000 |};
     alive := bool_decide (p ≠ 4%positive);
     out := [] |}.

Definition sample_new : Store :=
  {| chan_at := sample_channel;
     srv_at := λ _, NewServer {| BinaryMessage := false |} |}.

(** Channels 1 to 4 have joined room [r]. *)
Definition sample_room : Store :=
  foldl (λ σ c, (Channel_Join c "r" σ).2) sample_new [1; 2; 3; 4]%positive.

(** Scenario S4: channels 1 and 2 in rooms [r1] and [r2]; 1 leaves [r1];
    2 disconnects. *)
Definition sample_churn : Store :=
  let σ := foldl (λ σ cr, (Channel_Join cr.1 cr.2 σ).2) sample_new
             [(1, "r1"); (1, "r2"); (2, "r1"); (2, "r2")]%positive in
  let σ := (Channel_Leave 1 "r1" σ).2 in
  match onDisconnectCleanup 2 σ with
  | Some (_, σ') => σ'
  | None => σ
  end.

(** Channel 2 has been stored on connection, over protocol 4. *)
Definition sample_connected : Store :=
  match onConnectStore (λ _, 4) 4 2 sample_new with
  | Some (_, σ') => σ'
  | None => sample_new
  end.

(** * Properties *)

(** ** The ACK id allocator *)

Lemma wrap_int_id x : minInt ≤ x ≤ maxInt → wrap_int x = x.
Proof.
  unfold wrap_int, minInt, maxInt, intSize. intros Hx.
  rewrite Z.mod_small; lia.
Qed.

Lemma wrap_int_succ x : wrap_int (wrap_int x + 1) = wrap_int (x + 1).
Proof.
  unfold wrap_int, intSize.
  replace ((x + 2 ^ (64 - 1)) mod 2 ^ 64 - 2 ^ (64 - 1) + 1 + 2 ^ (64 - 1))
    with ((x + 2 ^ (64 - 1)) mod 2 ^ 64 + 1) by lia.
  rewrite Zplus_mod_idemp_l. f_equal. f_equal. lia.
Qed.

Lemma counter_after_calls n : counter (after_calls n) = wrap_int (Z.of_nat n).
Proof.
  induction n as [|n IH].
  - reflexivity.
  - change (after_calls (S n)) with (getNextId (after_calls n)).2.
    unfold getNextId. cbn [snd counter].
    rewrite IH, wrap_int_succ. f_equal. lia.
Qed.

Lemma nth_call_wrap n : (0 < n)%nat → nth_call n = wrap_int (Z.of_nat n).
Proof.
  intros Hn. unfold nth_call, getNextId. cbn [fst counter].
  rewrite counter_after_calls, wrap_int_succ. f_equal. lia.
Qed.

(** C3, as amended: on the zero-valued [ackProcessor] the first call to
    [getNextId] returns 1, and as long as [n] does not exceed the largest
    [int] the [n]-th call returns [n], which is strictly greater than every
    value returned before it. *)
Theorem getNextId_counts_up (n : nat) :
  (0 < n)%nat → Z.of_nat n ≤ maxInt →
  nth_call 1 = 1 ∧ nth_call n = Z.of_nat n
  ∧ ∀ m, (0 < m < n)%nat → nth_call m < nth_call n.
Proof.
  intros Hn Hmax. split; [reflexivity|].
  assert (Hid : ∀ k, (0 < k ≤ n)%nat → nth_call k = Z.of_nat k).
  { intros k Hk. rewrite nth_call_wrap by lia. apply wrap_int_id.
    unfold minInt, maxInt, intSize in *. lia. }
  split; [apply Hid; lia|].
  intros m Hm. rewrite !Hid by lia. lia.
Qed.

Lemma getNextId_counts_up_witness :
  nth_call 1 = 1 ∧ nth_call 5 = 5 ∧ ∀ m, (0 < m < 5)%nat → nth_call m < nth_call 5.
Proof. apply (getNextId_counts_up 5); [lia | vm_compute; discriminate]. Defined.

(** C3 as stated fails at call number [2^63]: the counter is an [int],
    so that call returns [-2^63], which is neither [2^63] nor above the 1
    that the first call returned. *)
Lemma getNextId_wraps :
  let n := Z.to_nat 9223372036854775808 in
  nth_call n = -9223372036854775808
  ∧ nth_call n ≠ Z.of_nat n
  ∧ nth_call n < nth_call 1.
Proof.
  intros n. subst n.
  rewrite !nth_call_wrap by lia.
  rewrite Z2Nat.id by lia.
  split_and!; [reflexivity|discriminate|reflexivity].
Qed.

(** ** The ACK waiters *)

Lemma ack_run_snoc cs c : ack_run (cs ++ [c]) = ack_step (ack_run cs) c.
Proof. unfold ack_run. by rewrite foldl_app. Qed.

Lemma ack_run_unregistered cs id :
  (∀ c, c ∈ cs → ¬ registers id c) → resultWaitersMap (ack_run cs) !! id = None.
Proof.
  induction cs as [|c cs IH] using rev_ind; intros Hno.
  - apply lookup_empty.
  - rewrite ack_run_snoc.
    assert (Hcs : resultWaitersMap (ack_run cs) !! id = None).
    { apply IH. intros c' Hc'. apply Hno. set_solver. }
    destruct c as [|id' w|id'|id']; simpl; try done.
    + rewrite lookup_insert_ne; [done|].
      intros ->. apply (Hno (CallAdd id w)); [set_solver|]. by exists w.
    + rewrite lookup_delete. by case_decide.
Qed.

(** C4: a registered waiter is what [getWaiter] returns, with a nil error;
    after [removeWaiter], and for an id that no call ever registered,
    [getWaiter] returns [ErrorWaiterNotFound]; [removeWaiter] of an id with
    no registration changes nothing. *)
Theorem waiter_roundtrip (a : ackProcessor) (id : Z) (w : waiter) :
  getWaiter id (addWaiter id w a) = (w, None)
  ∧ getWaiter id (removeWaiter id a) = (None, Some ErrorWaiterNotFound)
  ∧ (∀ cs, (∀ c, c ∈ cs → ¬ registers id c) →
       getWaiter id (ack_run cs) = (None, Some ErrorWaiterNotFound))
  ∧ (resultWaitersMap a !! id = None → removeWaiter id a = a).
Proof.
  repeat split.
  - unfold getWaiter, addWaiter; simpl. by rewrite lookup_insert_eq.
  - unfold getWaiter, removeWaiter; simpl. by rewrite lookup_delete_eq.
  - intros cs Hno. unfold getWaiter. by rewrite ack_run_unregistered.
  - intros Hid. destruct a as [n m]; unfold removeWaiter; simpl in *.
    f_equal. by apply delete_id.
Qed.

Lemma waiter_roundtrip_witness :
  getWaiter 7 (ack_run [CallAdd 3 (Some 1%positive); CallNextId; CallRemove 3])
    = (None, Some ErrorWaiterNotFound)
  ∧ removeWaiter 7 ackProcessor_zero = ackProcessor_zero.
Proof.
  destruct (waiter_roundtrip ackProcessor_zero 7 None) as (_ & _ & Hnever & Hnoop).
  split.
  - apply Hnever. intros c Hc [w ->].
    repeat (apply elem_of_cons in Hc as [Hc|Hc]; [discriminate Hc|]).
    by apply elem_of_nil in Hc.
  - apply Hnoop. reflexivity.
Defined.

(** ** Channels without a server *)

(** C5: on a channel whose [server] is nil, [Join] and [Leave] return
    [ErrorServerNotSet] for every room and hand back the store they were
    given. *)
Theorem detached_Join_Leave_fail (c : ChannelPtr) (room : string) (σ : Store) :
  server (chan_at σ c) = None →
  Channel_Join c room σ = (Some ErrorServerNotSet, σ)
  ∧ Channel_Leave c room σ = (Some ErrorServerNotSet, σ).
Proof. intros Hnil. unfold Channel_Join, Channel_Leave. by rewrite Hnil. Qed.

(** C10: on a channel whose [server] is nil, [Amount] is 0, [List] is the
    empty slice and [BroadcastTo] starts no goroutine; none of the three has
    an error result. *)
Theorem detached_queries_degrade (c : ChannelPtr) (room method : string)
    (args : Value) (σ : Store) :
  server (chan_at σ c) = None →
  Channel_Amount c room σ = 0
  ∧ Channel_List c room σ = []
  ∧ Channel_BroadcastTo c room method args σ = [].
Proof.
  intros Hnil. unfold Channel_Amount, Channel_List, Channel_BroadcastTo.
  by rewrite Hnil.
Qed.

(** ** Response headers *)

Lemma srv_at_set_srv sp s σ p :
  srv_at (set_srv sp s σ) p = if decide (p = sp) then s else srv_at σ p.
Proof. reflexivity. Qed.

(** C9: [EnableCORS] maps [Access-Control-Allow-Origin] to the domain and
    [Access-Control-Allow-Credentials] to [true], leaves every other header
    as it was, and touches nothing else in the store; an [AddHeader] under
    another name afterwards leaves both entries in place. *)
Theorem EnableCORS_sets_two_headers (s : ServerPtr) (d : string) (σ : Store) :
  let σ' := EnableCORS s d σ in
  headers (srv_at σ' s) !! "Access-Control-Allow-Origin" = Some d
  ∧ headers (srv_at σ' s) !! "Access-Control-Allow-Credentials" = Some "true"
  ∧ (∀ k, k ≠ "Access-Control-Allow-Origin" →
          k ≠ "Access-Control-Allow-Credentials" →
          headers (srv_at σ' s) !! k = headers (srv_at σ s) !! k)
  ∧ (∀ name value, name ≠ "Access-Control-Allow-Origin" →
          name ≠ "Access-Control-Allow-Credentials" →
          let σ'' := AddHeader s name value σ' in
          headers (srv_at σ'' s) !! "Access-Control-Allow-Origin" = Some d
          ∧ headers (srv_at σ'' s) !! "Access-Control-Allow-Credentials"
              = Some "true"
          ∧ headers (srv_at σ'' s) !! name = Some value)
  ∧ chan_at σ' = chan_at σ
  ∧ (∀ p, p ≠ s → srv_at σ' p = srv_at σ p)
  ∧ channels (srv_at σ' s) = channels (srv_at σ s)
  ∧ rooms (srv_at σ' s) = rooms (srv_at σ s)
  ∧ sids (srv_at σ' s) = sids (srv_at σ s)
  ∧ tr (srv_at σ' s) = tr (srv_at σ s).
Proof.
  intros σ'. subst σ'. unfold EnableCORS.
  rewrite !srv_at_set_srv, !decide_True by done.
  cbn [headers channels rooms sids tr with_headers].
  split_and!; try done.
  - by rewrite lookup_insert_ne, lookup_insert_eq.
  - by rewrite lookup_insert_eq.
  - intros k Ho Hc. by rewrite !lookup_insert_ne.
  - intros name value Ho Hc. unfold AddHeader.
    rewrite !srv_at_set_srv, !decide_True by done.
    cbn [headers with_headers].
    split_and!.
    + do 2 (rewrite lookup_insert_ne by done). by rewrite lookup_insert_eq.
    + by rewrite lookup_insert_ne, lookup_insert_eq.
    + by rewrite lookup_insert_eq.
  - intros p Hp. rewrite srv_at_set_srv. by rewrite decide_False.
Qed.

Lemma EnableCORS_sets_two_headers_witness :
  let σ := AddHeader 1 "X-Frame-Options" "DENY"
             (EnableCORS 1 "https://example.org" sample_new) in
  headers (srv_at σ 1) !! "Access-Control-Allow-Origin"
    = Some "https://example.org"
  ∧ headers (srv_at σ 1) !! "Access-Control-Allow-Credentials" = Some "true"
  ∧ headers (srv_at σ 1) !! "X-Frame-Options" = Some "DENY".
Proof.
  destruct (EnableCORS_sets_two_headers 1 "https://example.org" sample_new)
    as (_ & _ & _ & Hadd & _).
  apply (Hadd "X-Frame-Options" "DENY"); discriminate.
Defined.

(** ** The room registry *)

Section map_of_sets_facts.
Context `{Countable K, Countable A}.
Implicit Types (m : gmap K (gset A)) (k : K) (x : A).

Lemma bucket_lookup_Some m k b : m !! k = Some b → bucket k m = b.
Proof. unfold bucket. by intros ->. Qed.

Lemma bucket_lookup_None m k : m !! k = None → bucket k m = ∅.
Proof. unfold bucket. by intros ->. Qed.

Lemma bucket_delete_map m k k' :
  bucket k' (delete k m) = if decide (k' = k) then ∅ else bucket k' m.
Proof.
  unfold bucket. destruct (decide (k' = k)) as [->|Hk].
  - by rewrite lookup_delete_eq.
  - by rewrite lookup_delete_ne.
Qed.

(** Making the bucket if it is missing, then adding to it. *)
Lemma bucket_put_fresh m k x k' :
  bucket k' (bucket_put k x (match m !! k with
                             | Some _ => m
                             | None => <[k := ∅]> m
                             end))
  = if decide (k' = k) then {[x]} ∪ bucket k' m else bucket k' m.
Proof.
  unfold bucket, bucket_put.
  destruct (decide (k' = k)) as [->|Hk].
  - rewrite lookup_alter_eq. destruct (m !! k) as [b|] eqn:Hb.
    + by rewrite Hb.
    + by rewrite lookup_insert_eq.
  - rewrite lookup_alter_ne by done.
    destruct (m !! k); [done|]. by rewrite lookup_insert_ne.
Qed.

Lemma lookup_put_fresh m k x k' b :
  bucket_put k x (match m !! k with
                  | Some _ => m
                  | None => <[k := ∅]> m
                  end) !! k' = Some b →
  (k' = k ∧ x ∈ b) ∨ (k' ≠ k ∧ m !! k' = Some b).
Proof.
  unfold bucket_put.
  destruct (decide (k' = k)) as [->|Hk].
  - rewrite lookup_alter_eq. intros Hb. left. split; [done|].
    destruct (m !! k) as [b'|] eqn:Hm.
    + rewrite Hm in Hb. simplify_eq/=. set_solver.
    + rewrite lookup_insert_eq in Hb. simplify_eq/=. set_solver.
  - rewrite lookup_alter_ne by done. intros Hb. right. split; [done|].
    destruct (m !! k); [done|]. by rewrite lookup_insert_ne in Hb.
Qed.

(** Removing from a bucket that is there. *)
Lemma bucket_delete_present m k x k' :
  bucket k' (match m !! k with
             | Some _ => bucket_delete k x m
             | None => m
             end)
  = if decide (k' = k) then bucket k' m ∖ {[x]} else bucket k' m.
Proof.
  unfold bucket, bucket_delete.
  destruct (decide (k' = k)) as [->|Hk].
  - destruct (m !! k) as [b|] eqn:Hb.
    + by rewrite lookup_alter_eq, Hb.
    + rewrite Hb. simpl. by rewrite empty_difference_L.
  - destruct (m !! k); [|done]. by rewrite lookup_alter_ne.
Qed.
End map_of_sets_facts.

Lemma cleanup_room_lookup c cn room R :
  cleanup_room c cn room !! R =
    if decide (R = room)
    then b ← cn !! room; if decide (b ∖ {[c]} = ∅) then None else Some (b ∖ {[c]})
    else cn !! R.
Proof.
  unfold cleanup_room, bucket, bucket_delete.
  destruct (cn !! room) as [b|] eqn:Hb; simpl.
  - rewrite lookup_alter_eq, Hb. simpl.
    destruct (decide (size (b ∖ {[c]}) = 0%nat)) as [Hz|Hz].
    + apply size_empty_inv in Hz. apply leibniz_equiv in Hz.
      rewrite (decide_True _ _ Hz).
      destruct (decide (R = room)) as [->|HR]; [by rewrite lookup_delete_eq|].
      by rewrite lookup_delete_ne, lookup_alter_ne.
    + rewrite (decide_False (P := b ∖ {[c]} = ∅)).
      2:{ intros Hz'. apply Hz. rewrite Hz'. apply size_empty. }
      destruct (decide (R = room)) as [->|HR]; [by rewrite lookup_alter_eq, Hb|].
      by rewrite lookup_alter_ne.
  - destruct (decide (R = room)) as [->|HR]; done.
Qed.

Lemma bucket_cleanup_room c cn room R :
  bucket R (cleanup_room c cn room)
  = if decide (R = room) then bucket R cn ∖ {[c]} else bucket R cn.
Proof.
  unfold bucket at 1. rewrite cleanup_room_lookup.
  case_decide as HR; [subst R|done].
  unfold bucket. destruct (cn !! room) as [b|]; simpl.
  - by case_decide.
  - by rewrite empty_difference_L.
Qed.

Lemma pruned_cleanup_room c cn room :
  (∀ R b, cn !! R = Some b → b ≠ ∅) →
  ∀ R b, cleanup_room c cn room !! R = Some b → b ≠ ∅.
Proof.
  intros Hcn R b. rewrite cleanup_room_lookup.
  case_decide as HR; [|apply Hcn].
  destruct (cn !! room) as [b'|]; simpl; [|done].
  case_decide; [done|]. by intros [= <-].
Qed.

Lemma bucket_cleanup_rooms c l cn R :
  bucket R (foldl (cleanup_room c) cn l)
  = if decide (R ∈ l) then bucket R cn ∖ {[c]} else bucket R cn.
Proof.
  revert cn. induction l as [|room l IH]; intros cn; cbn [foldl].
  - rewrite decide_False; [done|]. apply not_elem_of_nil.
  - rewrite IH, bucket_cleanup_room.
    destruct (decide (R = room)) as [->|Hne].
    + rewrite (decide_True (P := room ∈ room :: l)) by set_solver.
      case_decide; set_solver.
    + destruct (decide (R ∈ l)) as [Hin|Hnin].
      * by rewrite decide_True by set_solver.
      * by rewrite decide_False by set_solver.
Qed.

Lemma pruned_cleanup_rooms c l cn :
  (∀ R b, cn !! R = Some b → b ≠ ∅) →
  ∀ R b, foldl (cleanup_room c) cn l !! R = Some b → b ≠ ∅.
Proof.
  revert cn. induction l as [|room l IH]; intros cn Hcn; simpl; [done|].
  apply IH. by apply pruned_cleanup_room.
Qed.

Lemma bimap_NewServer t : bimap (NewServer t).
Proof. intros R C. unfold bucket. simpl. by rewrite !lookup_empty. Qed.

Lemma pruned_NewServer t : pruned (NewServer t).
Proof. intros R b. simpl. by rewrite lookup_empty. Qed.

Lemma bimap_Join sp c room σ :
  bimap (srv_at σ sp) → bimap (srv_at (Channel_Join c room σ).2 sp).
Proof.
  intros Hinv. unfold Channel_Join.
  destruct (server (chan_at σ c)) as [sp'|]; [|done].
  cbn [snd]. rewrite srv_at_set_srv.
  destruct (decide (sp = sp')) as [<-|]; [|done].
  intros R C. cbn [channels rooms with_registry].
  rewrite !bucket_put_fresh. specialize (Hinv R C).
  destruct (decide (R = room)) as [->|], (decide (C = c)) as [->|];
    rewrite ?elem_of_union, ?elem_of_singleton; naive_solver.
Qed.

Lemma pruned_Join sp c room σ :
  pruned (srv_at σ sp) → pruned (srv_at (Channel_Join c room σ).2 sp).
Proof.
  intros Hinv. unfold Channel_Join.
  destruct (server (chan_at σ c)) as [sp'|]; [|done].
  cbn [snd]. rewrite srv_at_set_srv.
  destruct (decide (sp = sp')) as [<-|]; [|done].
  intros R b. cbn [channels with_registry].
  intros [[_ Hc]|[_ Hb]]%lookup_put_fresh.
  - intros ->. by apply not_elem_of_empty in Hc.
  - by apply (Hinv R).
Qed.

Lemma bimap_Leave sp c room σ :
  bimap (srv_at σ sp) → bimap (srv_at (Channel_Leave c room σ).2 sp).
Proof.
  intros Hinv. unfold Channel_Leave.
  destruct (server (chan_at σ c)) as [sp'|]; [|done].
  cbn [snd]. rewrite srv_at_set_srv.
  destruct (decide (sp = sp')) as [<-|]; [|done].
  intros R C. cbn [channels rooms with_registry].
  change (match channels (srv_at σ sp) !! room with
          | Some _ => _
          | None => _
          end) with (cleanup_room c (channels (srv_at σ sp)) room).
  rewrite bucket_cleanup_room, bucket_delete_present.
  specialize (Hinv R C).
  destruct (decide (R = room)) as [->|], (decide (C = c)) as [->|];
    rewrite ?elem_of_difference, ?elem_of_singleton; naive_solver.
Qed.

Lemma pruned_Leave sp c room σ :
  pruned (srv_at σ sp) → pruned (srv_at (Channel_Leave c room σ).2 sp).
Proof.
  intros Hinv. unfold Channel_Leave.
  destruct (server (chan_at σ c)) as [sp'|]; [|done].
  cbn [snd]. rewrite srv_at_set_srv.
  destruct (decide (sp = sp')) as [<-|]; [|done].
  cbn [channels with_registry].
  change (match channels (srv_at σ sp) !! room with
          | Some _ => _
          | None => _
          end) with (cleanup_room c (channels (srv_at σ sp)) room).
  intros R b. cbn [channels]. by apply pruned_cleanup_room.
Qed.

Lemma bimap_Cleanup sp c σ gs σ' :
  onDisconnectCleanup c σ = Some (gs, σ') →
  bimap (srv_at σ sp) → bimap (srv_at σ' sp).
Proof.
  unfold onDisconnectCleanup.
  destruct (server (chan_at σ c)) as [sp'|]; [|done].
  destruct (rooms (srv_at σ sp') !! c) as [byRoom|] eqn:Hc;
    intros [= <- <-] Hinv; [|done].
  rewrite srv_at_set_srv.
  destruct (decide (sp = sp')) as [<-|]; [|done].
  intros R C. cbn [channels rooms with_registry].
  rewrite bucket_cleanup_rooms, bucket_delete_map.
  pose proof (Hinv R C) as HRC. pose proof (Hinv R c) as HRc.
  rewrite (bucket_lookup_Some _ _ _ Hc) in HRc.
  destruct (decide (C = c)) as [->|].
  - rewrite elem_of_empty.
    case_decide as HR; rewrite ?elem_of_difference, ?elem_of_singleton.
    + tauto.
    + rewrite elem_of_elements in HR. tauto.
  - case_decide; rewrite ?elem_of_difference, ?elem_of_singleton; tauto.
Qed.

Lemma pruned_Cleanup sp c σ gs σ' :
  onDisconnectCleanup c σ = Some (gs, σ') →
  pruned (srv_at σ sp) → pruned (srv_at σ' sp).
Proof.
  unfold onDisconnectCleanup.
  destruct (server (chan_at σ c)) as [sp'|]; [|done].
  destruct (rooms (srv_at σ sp') !! c) as [byRoom|] eqn:Hc;
    intros [= <- <-] Hinv; [|done].
  rewrite srv_at_set_srv.
  destruct (decide (sp = sp')) as [<-|]; [|done].
  intros R b. cbn [channels with_registry]. by apply pruned_cleanup_rooms.
Qed.

Lemma reachable_bimap sp σ : reachable sp σ → bimap (srv_at σ sp).
Proof.
  induction 1 as [σ t Hnew|σ c room _ IH|σ c room _ IH|σ c gs σ' _ IH Hc|σ h _ IH].
  - rewrite Hnew. apply bimap_NewServer.
  - by apply bimap_Join.
  - by apply bimap_Leave.
  - by eapply bimap_Cleanup.
  - exact IH.
Qed.

Lemma reachable_pruned sp σ : reachable sp σ → pruned (srv_at σ sp).
Proof.
  induction 1 as [σ t Hnew|σ c room _ IH|σ c room _ IH|σ c gs σ' _ IH Hc|σ h _ IH].
  - rewrite Hnew. apply pruned_NewServer.
  - by apply pruned_Join.
  - by apply pruned_Leave.
  - by eapply pruned_Cleanup.
  - exact IH.
Qed.

(** C1: in every store reached from [NewServer] by [Join], [Leave] and
    [onDisconnectCleanup] calls, a channel is in the bucket of a room
    exactly when the room is in the set of the channel. *)
Theorem registry_bimap (sp : ServerPtr) (σ : Store) :
  reachable sp σ →
  ∀ (R : string) (C : ChannelPtr),
    C ∈ bucket R (channels (srv_at σ sp)) ↔ R ∈ bucket C (rooms (srv_at σ sp)).
Proof. apply reachable_bimap. Qed.

(** C2: in every such store no room is mapped to an empty bucket, so a
    room is a key of [channels] exactly when it has a member. *)
Theorem registry_pruned (sp : ServerPtr) (σ : Store) :
  reachable sp σ →
  ∀ R : string,
    channels (srv_at σ sp) !! R ≠ Some ∅
    ∧ (is_Some (channels (srv_at σ sp) !! R)
       ↔ ∃ C : ChannelPtr, C ∈ bucket R (channels (srv_at σ sp))).
Proof.
  intros Hreach R. pose proof (reachable_pruned sp σ Hreach R) as Hp.
  split; [intros Hb; by apply (Hp ∅)|].
  unfold bucket. split.
  - intros [b Hb]. rewrite Hb. simpl.
    apply set_choose_L. by apply Hp.
  - intros [C HC]. destruct (channels (srv_at σ sp) !! R); [done|].
    by apply not_elem_of_empty in HC.
Qed.

(** ** Broadcasts *)

#[local] Instance GoEmit_inj method args : Inj (=) (=) (λ cn, GoEmit cn method args).
Proof. by intros cn1 cn2 [= ->]. Qed.

Lemma elem_of_emits (P : ChannelPtr → Prop) `{∀ cn, Decision (P cn)}
    (l : list ChannelPtr) method args g :
  g ∈ (λ cn, GoEmit cn method args) <$> filter P l
  ↔ ∃ cn, g = GoEmit cn method args ∧ P cn ∧ cn ∈ l.
Proof.
  rewrite list_elem_of_fmap. by setoid_rewrite list_elem_of_filter.
Qed.

(** C6: [BroadcastTo] on a channel with a server starts one [Emit] for each
    member of the room that is alive and whose id differs from the
    sender's, and nothing else; none for the sender; none at all when the
    room has no bucket. *)
Theorem Channel_BroadcastTo_excludes_sender (c : ChannelPtr) (sp : ServerPtr)
    (room method : string) (args : Value) (σ : Store) :
  server (chan_at σ c) = Some sp →
  let gs := Channel_BroadcastTo c room method args σ in
  (∀ g, g ∈ gs ↔
     ∃ cn, g = GoEmit cn method args
           ∧ cn ∈ bucket room (channels (srv_at σ sp))
           ∧ Channel_IsAlive cn σ = true
           ∧ Channel_Id cn σ ≠ Channel_Id c σ)
  ∧ NoDup gs
  ∧ (∀ m a, GoEmit c m a ∉ gs)
  ∧ (channels (srv_at σ sp) !! room = None → gs = []).
Proof.
  intros Hsrv gs. subst gs. unfold Channel_BroadcastTo, bucket. rewrite Hsrv.
  destruct (channels (srv_at σ sp) !! room) as [roomChannels|]; simpl.
  - split_and!.
    + intros g. rewrite elem_of_emits. setoid_rewrite elem_of_elements.
      naive_solver.
    + apply (NoDup_fmap_2 _), NoDup_filter, NoDup_elements.
    + intros m a. rewrite elem_of_emits. intros (cn & [= <- _ _] & [Hid _] & _).
      by apply Hid.
    + done.
  - split_and!.
    + intros g. split; [by intros ?%elem_of_nil|].
      intros (cn & _ & Hcn & _). by apply not_elem_of_empty in Hcn.
    + constructor.
    + intros m a. apply not_elem_of_nil.
    + done.
Qed.

Lemma Channel_BroadcastTo_excludes_sender_witness :
  Channel_BroadcastTo 1 "r" "x" (VList [VString "a"]) sample_room
    = [GoEmit 3 "x" (VList [VString "a"]); GoEmit 2 "x" (VList [VString "a"])]
  ∧ ∀ m a, GoEmit 1 m a ∉ Channel_BroadcastTo 1 "r" "x" (VList [VString "a"]) sample_room.
Proof.
  split; [reflexivity|].
  apply (Channel_BroadcastTo_excludes_sender 1 1 "r" "x" (VList [VString "a"])
           sample_room).
  reflexivity.
Defined.

(** C7: every goroutine a broadcast starts is an [Emit] on a channel whose
    [IsAlive] holds in the store the broadcast reads. *)
Theorem broadcast_only_to_alive (c : ChannelPtr) (s : ServerPtr)
    (room method : string) (args : Value) (σ : Store) (g : spawn) :
  g ∈ Channel_BroadcastTo c room method args σ
  ∨ g ∈ Server_BroadcastTo s room method args σ
  ∨ g ∈ Server_BroadcastToAll s method args σ →
  ∃ cn, g = GoEmit cn method args ∧ Channel_IsAlive cn σ = true.
Proof.
  unfold Channel_BroadcastTo, Server_BroadcastTo, Server_BroadcastToAll.
  intros [Hg|[Hg|Hg]].
  - destruct (server (chan_at σ c)) as [sp|]; [|by apply elem_of_nil in Hg].
    destruct (channels (srv_at σ sp) !! room); [|by apply elem_of_nil in Hg].
    apply elem_of_emits in Hg as (cn & -> & [_ Halive] & _). eauto.
  - destruct (channels (srv_at σ s) !! room); [|by apply elem_of_nil in Hg].
    apply elem_of_emits in Hg as (cn & -> & Halive & _). eauto.
  - apply elem_of_emits in Hg as (cn & -> & Halive & _). eauto.
Qed.

Lemma broadcast_only_to_alive_witness :
  ∃ cn, GoEmit 2 "x" VNil = GoEmit cn "x" VNil
        ∧ Channel_IsAlive cn sample_room = true.
Proof.
  apply (broadcast_only_to_alive 1 1 "r" "x" VNil sample_room).
  right; left. vm_compute. apply list_elem_of_In. simpl. tauto.
Defined.

(** ** The open sequence *)

Lemma out_send c item σ :
  out (chan_at (send c item σ) c) = out (chan_at σ c) ++ [item].
Proof. unfold send, set_chan; simpl. by rewrite decide_True. Qed.

Lemma send_frame c item σ :
  header (chan_at (send c item σ) c) = header (chan_at σ c)
  ∧ server (chan_at (send c item σ) c) = server (chan_at σ c)
  ∧ alive (chan_at (send c item σ) c) = alive (chan_at σ c)
  ∧ (∀ c', c' ≠ c → chan_at (send c item σ) c' = chan_at σ c')
  ∧ srv_at (send c item σ) = srv_at σ.
Proof.
  unfold send, set_chan; simpl. rewrite decide_True by done.
  split_and!; try done. intros c' Hc'. by rewrite decide_False.
Qed.

(** C8: when the encoder succeeds, [SendOpenSequence] returns having sent
    two items on the channel's [out] queue and changed nothing else: the
    frame [0] followed by the JSON of the open header, then, on a binary
    transport, a [MsgPack] of type [CONNECT] on namespace [/] whose data
    holds the header's sid, and otherwise the frame [40] followed by the
    JSON of the object whose [sid] is the header's sid. *)
Theorem SendOpenSequence_two_items (Marshal : Value → option string)
    (s : ServerPtr) (c : ChannelPtr) (σ : Store) (jsonHdr sidJson : string) :
  let hdr := header (chan_at σ c) in
  Marshal (Header_value hdr) = Some jsonHdr →
  (BinaryMessage (tr (srv_at σ s)) = false →
   Marshal (VStruct [("sid", VString (Sid hdr))]) = Some sidJson) →
  ∃ σ', SendOpenSequence Marshal s c σ = Returned σ'
    ∧ out (chan_at σ' c) = out (chan_at σ c) ++
        [Frame ("0" +:+ jsonHdr);
         if BinaryMessage (tr (srv_at σ s))
         then Pack {| protocol.Type_ := 0;
                      protocol.Data := VStruct [("sid", VString (Sid hdr))];
                      protocol.Nsp := "/";
                      protocol.Id := 0 |}
         else Frame ("40" +:+ sidJson)]
    ∧ header (chan_at σ' c) = hdr
    ∧ server (chan_at σ' c) = server (chan_at σ c)
    ∧ alive (chan_at σ' c) = alive (chan_at σ c)
    ∧ (∀ c', c' ≠ c → chan_at σ' c' = chan_at σ c')
    ∧ srv_at σ' = srv_at σ.
Proof.
  intros hdr Hhdr Hsid. subst hdr. unfold SendOpenSequence. rewrite Hhdr.
  pose proof (send_frame c (Frame (protocol.OpenMsg +:+ jsonHdr)) σ)
    as (Hh1 & Hs1 & Ha1 & Ho1 & Hsrv1).
  pose proof (out_send c (Frame (protocol.OpenMsg +:+ jsonHdr)) σ) as Hout1.
  revert Hh1 Hs1 Ha1 Ho1 Hsrv1 Hout1.
  generalize (send c (Frame (protocol.OpenMsg +:+ jsonHdr)) σ).
  intros σ1 Hh1 Hs1 Ha1 Ho1 Hsrv1 Hout1. cbv zeta.
  unfold Channel_Id. rewrite Hsrv1, Hh1.
  destruct (BinaryMessage (tr (srv_at σ s))) eqn:Hbin.
  - eexists. split; [reflexivity|].
    rewrite out_send, Hout1, <- app_assoc.
    match goal with
    | |- context [send c ?item σ1] =>
        destruct (send_frame c item σ1) as (Hh2 & Hs2 & Ha2 & Ho2 & Hsrv2)
    end.
    split_and!; try congruence; [reflexivity|].
    intros c' Hc'. by rewrite Ho2, Ho1.
  - fold (Sid_value (Sid (header (chan_at σ c)))) in Hsid.
    rewrite Hsid by done.
    eexists. split; [reflexivity|].
    rewrite out_send, Hout1, <- app_assoc.
    match goal with
    | |- context [send c ?item σ1] =>
        destruct (send_frame c item σ1) as (Hh2 & Hs2 & Ha2 & Ho2 & Hsrv2)
    end.
    split_and!; try congruence; [reflexivity|].
    intros c' Hc'. by rewrite Ho2, Ho1.
Qed.

Lemma SendOpenSequence_two_items_witness :
  ∃ σ', SendOpenSequence (λ v, Some (compact_json v)) 1 1 sample_new
          = Returned σ'
    ∧ out (chan_at σ' 1) =
        [Frame ("0" +:+ compact_json (Header_value (header (sample_channel 1))));
         Frame ("40" +:+ compact_json (Sid_value "s1"))].
Proof.
  destruct (SendOpenSequence_two_items (λ v, Some (compact_json v)) 1 1
              sample_new
              (compact_json (Header_value (header (sample_channel 1))))
              (compact_json (Sid_value "s1")))
    as (σ' & Hret & Hout & _); [reflexivity | reflexivity |].
  exists σ'. split; [exact Hret | exact Hout].
Defined.

Example compact_json_sid :
  compact_json (Sid_value "s1")
  = "{" +:+ dquote +:+ "sid" +:+ dquote +:+ ":" +:+ dquote +:+ "s1" +:+ dquote
    +:+ "}".
Proof. reflexivity. Qed.

(** ** Examples on the small configuration *)

Lemma reachable_sample_churn : reachable 1 sample_churn.
Proof.
  unfold sample_churn.
  set (σ := (Channel_Leave 1 "r1" _).2).
  assert (Hσ : reachable 1 σ).
  { subst σ. apply reach_Leave. cbn [foldl fst snd].
    do 4 apply reach_Join. by apply (reach_NewServer _ _ {| BinaryMessage := false |}). }
  destruct (onDisconnectCleanup 2 σ) as [[gs σ']|] eqn:Hc; [|exact Hσ].
  by apply (reach_Cleanup _ σ 2 gs σ').
Defined.

Lemma registry_bimap_witness :
  reachable 1 sample_churn
  ∧ ∀ (R : string) (C : ChannelPtr),
      C ∈ bucket R (channels (srv_at sample_churn 1))
      ↔ R ∈ bucket C (rooms (srv_at sample_churn 1)).
Proof.
  split; [exact reachable_sample_churn|].
  apply (registry_bimap 1 sample_churn), reachable_sample_churn.
Defined.

Lemma registry_pruned_witness :
  reachable 1 sample_churn
  ∧ ∀ R : string,
      channels (srv_at sample_churn 1) !! R ≠ Some ∅
      ∧ (is_Some (channels (srv_at sample_churn 1) !! R)
         ↔ ∃ C : ChannelPtr, C ∈ bucket R (channels (srv_at sample_churn 1))).
Proof.
  split; [exact reachable_sample_churn|].
  apply (registry_pruned 1 sample_churn), reachable_sample_churn.
Defined.

Example sample_churn_registry :
  channels (srv_at sample_churn 1) = {[ "r2" := {[ 1%positive ]} ]}
  ∧ rooms (srv_at sample_churn 1) = {[ 1%positive := {[ "r2" ]} ]}.
Proof. split; by vm_compute. Qed.

Lemma detached_Join_Leave_fail_witness :
  Channel_Join 9 "r" sample_room = (Some ErrorServerNotSet, sample_room)
  ∧ Channel_Leave 9 "r" sample_room = (Some ErrorServerNotSet, sample_room).
Proof. apply (detached_Join_Leave_fail 9 "r" sample_room). reflexivity. Defined.

Lemma detached_queries_degrade_witness :
  Channel_Amount 9 "r" sample_room = 0
  ∧ Channel_List 9 "r" sample_room = []
  ∧ Channel_BroadcastTo 9 "r" "x" VNil sample_room = [].
Proof.
  apply (detached_queries_degrade 9 "r" "x" VNil sample_room). reflexivity.
Defined.

Example attached_Amount : Channel_Amount 1 "r" sample_room = 4.
Proof. reflexivity. Qed.

(** * Further properties *)

(** ** The ACK correlator over histories *)




Lemma lookup_ack_step a c id :
  keeps id c →
  resultWaitersMap (ack_step a c) !! id = resultWaitersMap a !! id.
Proof.
  destruct c as [|id' w|id'|id']; simpl; intros Hk; try done.
  - by rewrite lookup_insert_ne.
  - by rewrite lookup_delete_ne.
Qed.

Lemma lookup_ack_steps a cs id :
  Forall (keeps id) cs →
  resultWaitersMap (foldl ack_step a cs) !! id = resultWaitersMap a !! id.
Proof.
  intros Hcs. revert a. induction Hcs as [|c cs Hc _ IH]; intros a; [done|].
  simpl. by rewrite IH, lookup_ack_step.
Qed.

(** X2: whatever came before, a waiter registered under an id is what
    [getWaiter] returns after any later calls that neither add nor remove
    that id; and once the id is removed, [getWaiter] keeps answering
    [ErrorWaiterNotFound] through such calls. *)
Theorem waiter_survives (cs cs' : list ack_call) (id : Z) (w : waiter) :
  Forall (keeps id) cs' →
  getWaiter id (ack_run (cs ++ CallAdd id w :: cs')) = (w, None)
  ∧ getWaiter id (ack_run (cs ++ CallRemove id :: cs'))
      = (None, Some ErrorWaiterNotFound).
Proof.
  intros Hcs'. unfold getWaiter, ack_run.
  rewrite !foldl_app. cbn [foldl]. rewrite !lookup_ack_steps by done.
  simpl. by rewrite lookup_insert_eq, lookup_delete_eq.
Qed.

Lemma waiter_survives_witness :
  getWaiter 3 (ack_run [CallAdd 3 None; CallAdd 3 (Some 8%positive);
                        CallNextId; CallAdd 4 None; CallRemove 5])
    = (Some 8%positive, None)
  ∧ getWaiter 3 (ack_run [CallAdd 3 None; CallRemove 3;
                          CallNextId; CallAdd 4 None; CallRemove 5])
    = (None, Some ErrorWaiterNotFound).
Proof.
  apply (waiter_survives [CallAdd 3 None] [CallNextId; CallAdd 4 None; CallRemove 5]).
  repeat constructor; discriminate.
Defined.

(** ** The sid registry *)

Lemma srv_eq (s : Server) h cn byRoom m t :
  h = headers s → cn = channels s → byRoom = rooms s → m = sids s →
  t = tr s →
  {| headers := h; channels := cn; rooms := byRoom; sids := m; tr := t |} = s.
Proof. intros -> -> -> -> ->. by destruct s. Qed.

(** X3: storing an attached channel makes [GetChannel] return it under its
    id, leaves every other sid, the room registry and the headers as they
    were, and starts the ping scheduler exactly when the connection speaks
    protocol 4; on a channel without a server it panics. *)
Theorem onConnectStore_registers (proto : ChannelPtr → Z) (p4 : Z)
    (c : ChannelPtr) (sp : ServerPtr) (σ : Store) :
  server (chan_at σ c) = Some sp →
  ∃ ps σ', onConnectStore proto p4 c σ = Some (ps, σ')
    ∧ GetChannel sp (Channel_Id c σ) σ' = (Some c, None)
    ∧ (∀ sid, sid ≠ Channel_Id c σ →
         GetChannel sp sid σ' = GetChannel sp sid σ)
    ∧ (ps = [GoSchedulePing c] ↔ proto c = p4)
    ∧ (ps = [] ↔ proto c ≠ p4)
    ∧ channels (srv_at σ' sp) = channels (srv_at σ sp)
    ∧ rooms (srv_at σ' sp) = rooms (srv_at σ sp)
    ∧ headers (srv_at σ' sp) = headers (srv_at σ sp)
    ∧ chan_at σ' = chan_at σ
    ∧ (∀ p, p ≠ sp → srv_at σ' p = srv_at σ p).
Proof.
  intros Hsrv. unfold onConnectStore, GetChannel. rewrite Hsrv.
  eexists _, _. split; [reflexivity|].
  rewrite !srv_at_set_srv, !decide_True by done.
  cbn [sids channels rooms headers with_sids].
  split_and!; try done.
  - by rewrite lookup_insert_eq.
  - intros sid Hsid. by rewrite lookup_insert_ne.
  - case_decide; naive_solver.
  - case_decide; naive_solver.
  - intros p Hp. rewrite srv_at_set_srv. by rewrite decide_False.
Qed.

Lemma onConnectStore_registers_witness :
  ∃ ps σ', onConnectStore (λ _, 4) 4 2 sample_room = Some (ps, σ')
    ∧ GetChannel 1 "s2" σ' = (Some 2%positive, None)
    ∧ ps = [GoSchedulePing 2].
Proof.
  destruct (onConnectStore_registers (λ _, 4) 4 2 1 sample_room)
    as (ps & σ' & Hrun & Hget & _ & Hping & _); [reflexivity|].
  exists ps, σ'. split_and!; [exact Hrun | exact Hget | by apply Hping].
Defined.

(** X4: [deleteSid] on an attached channel makes [GetChannel] answer
    [ErrorConnectionNotFound] for the channel's id, whichever channel was
    stored under it, and changes nothing else. *)
Theorem deleteSid_unregisters (c : ChannelPtr) (sp : ServerPtr) (σ : Store) :
  server (chan_at σ c) = Some sp →
  ∃ σ', deleteSid c σ = Some σ'
    ∧ GetChannel sp (Channel_Id c σ) σ' = (None, Some ErrorConnectionNotFound)
    ∧ (∀ sid, sid ≠ Channel_Id c σ →
         GetChannel sp sid σ' = GetChannel sp sid σ)
    ∧ channels (srv_at σ' sp) = channels (srv_at σ sp)
    ∧ rooms (srv_at σ' sp) = rooms (srv_at σ sp)
    ∧ headers (srv_at σ' sp) = headers (srv_at σ sp)
    ∧ chan_at σ' = chan_at σ
    ∧ (∀ p, p ≠ sp → srv_at σ' p = srv_at σ p).
Proof.
  intros Hsrv. unfold deleteSid, GetChannel. rewrite Hsrv.
  eexists. split; [reflexivity|].
  rewrite !srv_at_set_srv, !decide_True by done.
  cbn [sids channels rooms headers with_sids].
  split_and!; try done.
  - by rewrite lookup_delete_eq.
  - intros sid Hsid. by rewrite lookup_delete_ne.
  - intros p Hp. rewrite srv_at_set_srv. by rewrite decide_False.
Qed.

Lemma keeps_sids_by_id sp σ σ' :
  keeps_sids sp σ σ' → sids_by_id sp σ → sids_by_id sp σ'.
Proof.
  intros [Hs Hh] Hinv sid c. rewrite Hs. unfold Channel_Id. rewrite Hh.
  apply Hinv.
Qed.

Lemma sids_by_id_step sp σ σ' :
  sids_by_id sp σ →
  (∃ proto p4 c ps, onConnectStore proto p4 c σ = Some (ps, σ'))
  ∨ (∃ c, deleteSid c σ = Some σ') →
  sids_by_id sp σ'.
Proof.
  intros Hinv [(proto & p4 & c & ps & Hc)|(c & Hc)] sid c0.
  - unfold onConnectStore in Hc.
    destruct (server (chan_at σ c)) as [sp'|]; [|done].
    injection Hc as _ <-. rewrite srv_at_set_srv.
    destruct (decide (sp = sp')) as [<-|]; [|apply Hinv].
    cbn [sids with_sids].
    destruct (decide (sid = Channel_Id c σ)) as [->|Hne].
    + rewrite lookup_insert_eq. by intros [= <-].
    + rewrite lookup_insert_ne by done. apply Hinv.
  - unfold deleteSid in Hc.
    destruct (server (chan_at σ c)) as [sp'|]; [|done].
    injection Hc as <-. rewrite srv_at_set_srv.
    destruct (decide (sp = sp')) as [<-|]; [|apply Hinv].
    cbn [sids with_sids]. intros [_ Hl]%lookup_delete_Some. by apply Hinv.
Qed.

Lemma connected_sids sp σ : connected sp σ → sids_by_id sp σ.
Proof.
  induction 1 as [σ t Hnew|σ proto p4 c ps σ' _ IH Hc|σ c σ' _ IH Hc
                  |σ σ' _ IH Hsids Hhdr].
  - intros sid c. rewrite Hnew. simpl. by rewrite lookup_empty.
  - apply (sids_by_id_step sp σ σ'); [done|]. left. by exists proto, p4, c, ps.
  - apply (sids_by_id_step sp σ σ'); [done|]. right. by exists c.
  - by apply (keeps_sids_by_id sp σ σ').
Qed.

(** X5: in every store reached from [NewServer] by [onConnectStore] and
    [deleteSid] calls, with the channels' headers left alone in between, a
    channel that [GetChannel] returns for a sid has that sid as its id. *)
Theorem GetChannel_returns_its_sid (sp : ServerPtr) (σ : Store)
    (sid : string) (c : ChannelPtr) :
  connected sp σ →
  GetChannel sp sid σ = (Some c, None) →
  Channel_Id c σ = sid.
Proof.
  intros Hconn. unfold GetChannel.
  destruct (sids (srv_at σ sp) !! sid) as [c'|] eqn:Hsid; [|done].
  intros [= <-]. by apply (connected_sids sp).
Qed.

(** ** Joining and leaving rooms *)

Section map_of_sets_lookups.
Context `{Countable K, Countable A}.
Implicit Types (m : gmap K (gset A)) (k : K) (x : A).

Lemma lookup_put_fresh_eq m k x k' :
  bucket_put k x (match m !! k with
                  | Some _ => m
                  | None => <[k := ∅]> m
                  end) !! k'
  = if decide (k' = k) then Some ({[x]} ∪ bucket k m) else m !! k'.
Proof.
  unfold bucket, bucket_put.
  destruct (decide (k' = k)) as [->|Hk].
  - rewrite lookup_alter_eq. destruct (m !! k) as [b|] eqn:Hb.
    + by rewrite Hb.
    + by rewrite lookup_insert_eq.
  - rewrite lookup_alter_ne by done.
    destruct (m !! k); [done|]. by rewrite lookup_insert_ne.
Qed.

Lemma lookup_delete_present m k x k' :
  match m !! k with
  | Some _ => bucket_delete k x m
  | None => m
  end !! k'
  = if decide (k' = k) then (λ b, b ∖ {[x]}) <$> m !! k else m !! k'.
Proof.
  unfold bucket_delete.
  destruct (decide (k' = k)) as [->|Hk].
  - destruct (m !! k) as [b|] eqn:Hb.
    + by rewrite lookup_alter_eq, Hb.
    + by rewrite Hb.
  - destruct (m !! k); [|done]. by rewrite lookup_alter_ne.
Qed.
End map_of_sets_lookups.

(** The server a channel is attached to, after a [Join]. *)
Lemma Join_srv c room σ sp :
  server (chan_at σ c) = Some sp →
  let s := srv_at σ sp in
  let s' := srv_at (Channel_Join c room σ).2 sp in
  (Channel_Join c room σ).1 = None
  ∧ (∀ R, channels s' !! R
          = if decide (R = room) then Some ({[c]} ∪ bucket room (channels s))
            else channels s !! R)
  ∧ (∀ C, rooms s' !! C
          = if decide (C = c) then Some ({[room]} ∪ bucket c (rooms s))
            else rooms s !! C)
  ∧ headers s' = headers s ∧ sids s' = sids s ∧ tr s' = tr s
  ∧ chan_at (Channel_Join c room σ).2 = chan_at σ
  ∧ (∀ p, p ≠ sp → srv_at (Channel_Join c room σ).2 p = srv_at σ p).
Proof.
  intros Hsrv s s'. subst s s'. unfold Channel_Join. rewrite Hsrv.
  cbn [fst snd]. rewrite srv_at_set_srv, decide_True by done.
  cbn [channels rooms headers sids tr with_registry].
  split_and!; try done.
  - intros R. apply lookup_put_fresh_eq.
  - intros C. apply lookup_put_fresh_eq.
  - intros p Hp. rewrite srv_at_set_srv. by rewrite decide_False.
Qed.

(** The server a channel is attached to, after a [Leave]. *)
Lemma Leave_srv c room σ sp :
  server (chan_at σ c) = Some sp →
  let s := srv_at σ sp in
  let s' := srv_at (Channel_Leave c room σ).2 sp in
  (Channel_Leave c room σ).1 = None
  ∧ channels s' = cleanup_room c (channels s) room
  ∧ (∀ C, rooms s' !! C
          = if decide (C = c) then (λ b, b ∖ {[room]}) <$> rooms s !! c
            else rooms s !! C)
  ∧ headers s' = headers s ∧ sids s' = sids s ∧ tr s' = tr s
  ∧ chan_at (Channel_Leave c room σ).2 = chan_at σ
  ∧ (∀ p, p ≠ sp → srv_at (Channel_Leave c room σ).2 p = srv_at σ p).
Proof.
  intros Hsrv s s'. subst s s'. unfold Channel_Leave. rewrite Hsrv.
  cbn [fst snd]. rewrite srv_at_set_srv, decide_True by done.
  cbn [channels rooms headers sids tr with_registry].
  split_and!; try done.
  - intros C. apply lookup_delete_present.
  - intros p Hp. rewrite srv_at_set_srv. by rewrite decide_False.
Qed.

Lemma Server_ext (s s' : Server) :
  headers s' = headers s → channels s' = channels s → rooms s' = rooms s →
  sids s' = sids s → tr s' = tr s → s' = s.
Proof. destruct s, s'; simpl. by intros -> -> -> -> ->. Qed.

(** X6: joining a room a second time changes nothing: every server is left
    as the first [Join] left it, and both calls return a nil error. *)
Theorem Join_twice (c : ChannelPtr) (sp : ServerPtr) (room : string) (σ : Store) :
  server (chan_at σ c) = Some sp →
  let σ1 := (Channel_Join c room σ).2 in
  let σ2 := (Channel_Join c room σ1).2 in
  (Channel_Join c room σ).1 = None
  ∧ (Channel_Join c room σ1).1 = None
  ∧ chan_at σ2 = chan_at σ1
  ∧ ∀ p, srv_at σ2 p = srv_at σ1 p.
Proof.
  intros Hsrv σ1 σ2.
  destruct (Join_srv c room σ sp Hsrv)
    as (Herr1 & Hcn1 & Hby1 & _ & _ & _ & Hch1 & _).
  assert (Hsrv1 : server (chan_at σ1 c) = Some sp).
  { subst σ1. by rewrite Hch1. }
  destruct (Join_srv c room σ1 sp Hsrv1)
    as (Herr2 & Hcn2 & Hby2 & Hh2 & Hs2 & Ht2 & Hch2 & Hother2).
  fold σ1 in Hcn1, Hby1. fold σ2 in Hcn2, Hby2, Hh2, Hs2, Ht2, Hch2, Hother2.
  split_and!; try done.
  intros p. destruct (decide (p = sp)) as [->|Hp]; [|by apply Hother2].
  apply Server_ext; try done.
  - apply map_eq. intros R. rewrite Hcn2.
    case_decide as HR; [subst R|done].
    unfold bucket. rewrite !Hcn1, decide_True by done. simpl.
    f_equal. set_solver.
  - apply map_eq. intros C. rewrite Hby2.
    case_decide as HC; [subst C|done].
    unfold bucket. rewrite !Hby1, decide_True by done. simpl.
    f_equal. set_solver.
Qed.

Lemma Join_twice_witness :
  let σ1 := (Channel_Join 1 "r" sample_new).2 in
  let σ2 := (Channel_Join 1 "r" σ1).2 in
  server (chan_at sample_new 1) = Some 1%positive
  ∧ ∀ p, srv_at σ2 p = srv_at σ1 p.
Proof.
  split; [reflexivity|].
  apply (Join_twice 1 1 "r" sample_new). reflexivity.
Defined.

(** X7: in a reachable store, when a channel that is not in a room joins
    it and then leaves it, the map of rooms is back to what it was and so
    is every channel's set of rooms; the one trace is that [rooms] now has
    an entry for the channel, empty if it had none. *)
Theorem Leave_undoes_Join (c : ChannelPtr) (sp : ServerPtr) (room : string)
    (σ : Store) :
  reachable sp σ →
  server (chan_at σ c) = Some sp →
  c ∉ bucket room (channels (srv_at σ sp)) →
  let σ2 := (Channel_Leave c room (Channel_Join c room σ).2).2 in
  channels (srv_at σ2 sp) = channels (srv_at σ sp)
  ∧ (∀ C, bucket C (rooms (srv_at σ2 sp)) = bucket C (rooms (srv_at σ sp)))
  ∧ rooms (srv_at σ2 sp) !! c = Some (bucket c (rooms (srv_at σ sp)))
  ∧ headers (srv_at σ2 sp) = headers (srv_at σ sp)
  ∧ sids (srv_at σ2 sp) = sids (srv_at σ sp)
  ∧ chan_at σ2 = chan_at σ
  ∧ (∀ p, p ≠ sp → srv_at σ2 p = srv_at σ p).
Proof.
  intros Hreach Hsrv Hnot σ2.
  pose proof (reachable_bimap sp σ Hreach) as Hbi.
  pose proof (reachable_pruned sp σ Hreach) as Hpr.
  destruct (Join_srv c room σ sp Hsrv)
    as (_ & Hcn1 & Hby1 & Hh1 & Hs1 & _ & Hch1 & Hother1).
  set (σ1 := (Channel_Join c room σ).2) in *.
  assert (Hsrv1 : server (chan_at σ1 c) = Some sp) by by rewrite Hch1.
  destruct (Leave_srv c room σ1 sp Hsrv1)
    as (_ & Hcn2 & Hby2 & Hh2 & Hs2 & _ & Hch2 & Hother2).
  fold σ2 in Hcn2, Hby2, Hh2, Hs2, Hch2, Hother2.
  assert (Hroom : room ∉ bucket c (rooms (srv_at σ sp))).
  { intros Hin. by apply Hnot, Hbi. }
  assert (Hrooms : ∀ C, rooms (srv_at σ2 sp) !! C
            = if decide (C = c) then Some (bucket c (rooms (srv_at σ sp)))
              else rooms (srv_at σ sp) !! C).
  { intros C. rewrite Hby2. case_decide as HC.
    - rewrite Hby1, decide_True by done. simpl. f_equal. set_solver.
    - by rewrite Hby1, decide_False. }
  split_and!.
  - apply map_eq. intros R. rewrite Hcn2, cleanup_room_lookup.
    case_decide as HR; [subst R|by rewrite Hcn1, decide_False].
    rewrite Hcn1, decide_True by done. simpl.
    replace (({[c]} ∪ bucket room (channels (srv_at σ sp))) ∖ {[c]})
      with (bucket room (channels (srv_at σ sp))) by set_solver.
    unfold bucket in *.
    destruct (channels (srv_at σ sp) !! room) as [b|] eqn:Hb; simpl.
    + rewrite decide_False; [done|]. by apply (Hpr room).
    + by rewrite decide_True.
  - intros C. unfold bucket at 1. rewrite Hrooms.
    case_decide as HC; [by subst C|done].
  - by rewrite Hrooms, decide_True.
  - congruence.
  - congruence.
  - congruence.
  - intros p Hp. by rewrite Hother2, Hother1.
Qed.

Lemma Leave_undoes_Join_witness :
  let σ2 := (Channel_Leave 3 "r2" (Channel_Join 3 "r2" sample_churn).2).2 in
  reachable 1 sample_churn
  ∧ channels (srv_at σ2 1) = channels (srv_at sample_churn 1)
  ∧ rooms (srv_at σ2 1) !! 3%positive = Some ∅.
Proof.
  split; [exact reachable_sample_churn|].
  destruct (Leave_undoes_Join 3 1 "r2" sample_churn)
    as (Hcn & _ & Hby & _); [exact reachable_sample_churn|reflexivity| |].
  - vm_compute. discriminate.
  - split; [exact Hcn|exact Hby].
Defined.

(** X8: in a reachable store, [Leave] by a channel that is not in the room
    returns a nil error and changes no server. *)
Theorem Leave_non_member (c : ChannelPtr) (sp : ServerPtr) (room : string)
    (σ : Store) :
  reachable sp σ →
  server (chan_at σ c) = Some sp →
  c ∉ bucket room (channels (srv_at σ sp)) →
  (Channel_Leave c room σ).1 = None
  ∧ chan_at (Channel_Leave c room σ).2 = chan_at σ
  ∧ ∀ p, srv_at (Channel_Leave c room σ).2 p = srv_at σ p.
Proof.
  intros Hreach Hsrv Hnot.
  pose proof (reachable_bimap sp σ Hreach) as Hbi.
  pose proof (reachable_pruned sp σ Hreach) as Hpr.
  destruct (Leave_srv c room σ sp Hsrv)
    as (Herr & Hcn & Hby & Hh & Hs & Ht & Hch & Hother).
  split_and!; try done.
  intros p. destruct (decide (p = sp)) as [->|Hp]; [|by apply Hother].
  apply Server_ext; try done.
  - apply map_eq. intros R. rewrite Hcn, cleanup_room_lookup.
    case_decide as HR; [subst R|done].
    unfold bucket in Hnot.
    destruct (channels (srv_at σ sp) !! room) as [b|] eqn:Hb; simpl; [|done].
    simpl in Hnot. replace (b ∖ {[c]}) with b by set_solver.
    rewrite decide_False; [done|]. by apply (Hpr room).
  - apply map_eq. intros C. rewrite Hby.
    case_decide as HC; [subst C|done].
    assert (Hroom : room ∉ bucket c (rooms (srv_at σ sp))).
    { intros Hin. by apply Hnot, Hbi. }
    unfold bucket in Hroom.
    destruct (rooms (srv_at σ sp) !! c) as [r|]; simpl in *; [|done].
    f_equal. set_solver.
Qed.

Lemma Leave_non_member_witness :
  reachable 1 sample_churn
  ∧ ∀ p, srv_at (Channel_Leave 3 "r2" sample_churn).2 p = srv_at sample_churn p.
Proof.
  split; [exact reachable_sample_churn|].
  apply (Leave_non_member 3 1 "r2" sample_churn);
    [exact reachable_sample_churn|reflexivity|].
  vm_compute. discriminate.
Defined.

(** ** Counting and listing *)

(** X9: [Server.List] returns the members of the room, each once, and
    [Server.Amount] is the length of that list; for a room without a bucket
    the list is empty and the amount 0. *)
Theorem List_lists_members (s : ServerPtr) (room : string) (σ : Store) :
  (∀ c, c ∈ Server_List s room σ ↔ c ∈ bucket room (channels (srv_at σ s)))
  ∧ NoDup (Server_List s room σ)
  ∧ Server_Amount s room σ = Z.of_nat (length (Server_List s room σ))
  ∧ (channels (srv_at σ s) !! room = None →
     Server_List s room σ = [] ∧ Server_Amount s room σ = 0).
Proof.
  unfold Server_List, Server_Amount, bucket.
  destruct (channels (srv_at σ s) !! room) as [b|]; simpl.
  - split_and!; [|apply NoDup_elements|done|done].
    intros c. apply elem_of_elements.
  - split_and!; [|constructor|done|done].
    intros c. split; [by intros ?%elem_of_nil|by intros ?%not_elem_of_empty].
Qed.

(** X10: [Join] raises the amount of the room by one when the channel was
    not in it and leaves it alone when it was; [Leave] lowers it by one when
    the channel was in the room and leaves it alone when it was not; the
    amounts of all other rooms stay the same. *)
Theorem Amount_follows_Join_Leave (c : ChannelPtr) (sp : ServerPtr)
    (room R : string) (σ : Store) :
  server (chan_at σ c) = Some sp →
  Server_Amount sp R (Channel_Join c room σ).2
    = (if decide (R = room ∧ c ∉ bucket room (channels (srv_at σ sp)))
       then Server_Amount sp R σ + 1 else Server_Amount sp R σ)
  ∧ Server_Amount sp R (Channel_Leave c room σ).2
    = (if decide (R = room ∧ c ∈ bucket room (channels (srv_at σ sp)))
       then Server_Amount sp R σ - 1 else Server_Amount sp R σ).
Proof.
  intros Hsrv. unfold Server_Amount. split.
  - unfold Channel_Join. rewrite Hsrv. cbn [snd].
    rewrite srv_at_set_srv, decide_True by done. cbn [channels with_registry].
    rewrite bucket_put_fresh.
    destruct (decide (R = room)) as [->|HR].
    + destruct (decide (c ∈ bucket room (channels (srv_at σ sp)))) as [Hin|Hin].
      * rewrite decide_False by tauto. do 2 f_equal. set_solver.
      * rewrite decide_True by tauto.
        rewrite size_union, size_singleton by set_solver. lia.
    + by rewrite decide_False by tauto.
  - destruct (Leave_srv c room σ sp Hsrv) as (_ & -> & _).
    rewrite bucket_cleanup_room.
    destruct (decide (R = room)) as [->|HR].
    + destruct (decide (c ∈ bucket room (channels (srv_at σ sp)))) as [Hin|Hin].
      * rewrite decide_True by tauto.
        rewrite size_difference, size_singleton by set_solver.
        assert (size (bucket room (channels (srv_at σ sp))) ≠ 0%nat).
        { apply size_non_empty_iff. set_solver. }
        lia.
      * rewrite decide_False by tauto. do 2 f_equal. set_solver.
    + by rewrite decide_False by tauto.
Qed.

Lemma Amount_follows_Join_Leave_witness :
  Server_Amount 1 "r" (Channel_Join 3 "r" sample_room).2 = 4
  ∧ Server_Amount 1 "r" (Channel_Leave 3 "r" sample_room).2 = 3.
Proof.
  destruct (Amount_follows_Join_Leave 3 1 "r" "r" sample_room) as [HJ HL];
    [reflexivity|].
  split; [rewrite HJ|rewrite HL]; reflexivity.
Defined.

(** X11: in a reachable store [AmountOfRooms] is 0 exactly when no channel
    is in any room, and a room counts exactly when it has a member. *)
Theorem AmountOfRooms_counts_inhabited (sp : ServerPtr) (σ : Store) :
  reachable sp σ →
  (AmountOfRooms sp σ = 0
   ↔ ∀ (R : string) (C : ChannelPtr), C ∉ bucket R (channels (srv_at σ sp)))
  ∧ AmountOfRooms sp σ
    = Z.of_nat (size (filter (λ R, bucket R (channels (srv_at σ sp)) ≠ ∅)
                             (dom (channels (srv_at σ sp))))).
Proof.
  intros Hreach. pose proof (reachable_pruned sp σ Hreach) as Hpr.
  unfold AmountOfRooms. split.
  - split.
    + intros Hz. assert (channels (srv_at σ sp) = ∅) as ->.
      { apply map_size_empty_inv. lia. }
      intros R C. unfold bucket. rewrite lookup_empty. apply not_elem_of_empty.
    + intros Hnone.
      assert (channels (srv_at σ sp) = ∅) as ->; [|by rewrite map_size_empty].
      apply map_empty. intros R.
      destruct (channels (srv_at σ sp) !! R) as [b|] eqn:Hb; [|done].
      destruct (set_choose_L b) as [C HC]; [by apply (Hpr R)|].
      destruct (Hnone R C). unfold bucket. by rewrite Hb.
  - rewrite <- size_dom. f_equal. f_equal.
    apply set_eq. intros R. rewrite elem_of_filter, elem_of_dom.
    split; [|tauto]. intros [b Hb]. split; [|by exists b].
    unfold bucket. rewrite Hb. by apply (Hpr R).
Qed.

Lemma AmountOfRooms_counts_inhabited_witness :
  reachable 1 sample_churn
  ∧ AmountOfRooms 1 sample_churn = 1
  ∧ (AmountOfRooms 1 sample_churn = 0
     ↔ ∀ (R : string) (C : ChannelPtr),
         C ∉ bucket R (channels (srv_at sample_churn 1))).
Proof.
  split; [exact reachable_sample_churn|]. split; [reflexivity|].
  apply (AmountOfRooms_counts_inhabited 1 sample_churn), reachable_sample_churn.
Defined.

(** X12: [AmountOfSids] grows by one when [onConnectStore] stores a sid
    that was free and stays the same when the sid was taken (the entry is
    replaced); it shrinks by one when [deleteSid] removes a sid that was
    there and stays the same otherwise. *)
Theorem AmountOfSids_follows (proto : ChannelPtr → Z) (p4 : Z)
    (c : ChannelPtr) (sp : ServerPtr) (σ : Store) :
  server (chan_at σ c) = Some sp →
  (∀ ps σ', onConnectStore proto p4 c σ = Some (ps, σ') →
     AmountOfSids sp σ'
     = match sids (srv_at σ sp) !! Channel_Id c σ with
       | Some _ => AmountOfSids sp σ
       | None => AmountOfSids sp σ + 1
       end)
  ∧ (∀ σ', deleteSid c σ = Some σ' →
     AmountOfSids sp σ'
     = match sids (srv_at σ sp) !! Channel_Id c σ with
       | Some _ => AmountOfSids sp σ - 1
       | None => AmountOfSids sp σ
       end).
Proof.
  intros Hsrv. unfold onConnectStore, deleteSid, AmountOfSids. rewrite Hsrv.
  split.
  - intros ps σ' [= _ <-]. rewrite srv_at_set_srv, decide_True by done.
    cbn [sids with_sids]. rewrite map_size_insert.
    destruct (sids (srv_at σ sp) !! Channel_Id c σ); simpl; lia.
  - intros σ' [= <-]. rewrite srv_at_set_srv, decide_True by done.
    cbn [sids with_sids]. rewrite map_size_delete.
    destruct (sids (srv_at σ sp) !! Channel_Id c σ) eqn:Hl; simpl; [|lia].
    assert (size (sids (srv_at σ sp)) ≠ 0%nat).
    { apply map_size_non_empty_iff. intros Hm. by rewrite Hm in Hl. }
    lia.
Qed.

Lemma AmountOfSids_follows_witness :
  ∃ ps σ', onConnectStore (λ _, 4) 4 2 sample_room = Some (ps, σ')
    ∧ AmountOfSids 1 σ' = 1
    ∧ ∃ σ'', deleteSid 2 σ' = Some σ'' ∧ AmountOfSids 1 σ'' = 0.
Proof.
  eexists _, _. split; [reflexivity|].
  destruct (AmountOfSids_follows (λ _, 4) 4 2 1 sample_room) as [Hc _];
    [reflexivity|].
  split; [by rewrite (Hc _ _ eq_refl)|].
  eexists. split; [reflexivity|]. reflexivity.
Defined.

(** ** Disconnecting *)

(** X13: in a reachable store, [onDisconnectCleanup] on an attached channel
    returns having taken the channel out of every room and dropped its
    entry of [rooms]; the other channels stay in exactly the rooms they were
    in, no empty bucket is left, the sids and headers are untouched, and the
    one goroutine started is [deleteSid]: until that runs, the sid still
    resolves. *)
Theorem onDisconnectCleanup_leaves_all (c : ChannelPtr) (sp : ServerPtr)
    (σ : Store) :
  reachable sp σ →
  server (chan_at σ c) = Some sp →
  ∃ σ', onDisconnectCleanup c σ = Some ([GoDeleteSid c], σ')
    ∧ (∀ R, c ∉ bucket R (channels (srv_at σ' sp)))
    ∧ rooms (srv_at σ' sp) !! c = None
    ∧ (∀ R C, C ≠ c →
         (C ∈ bucket R (channels (srv_at σ' sp))
          ↔ C ∈ bucket R (channels (srv_at σ sp)))
         ∧ rooms (srv_at σ' sp) !! C = rooms (srv_at σ sp) !! C)
    ∧ (∀ R, channels (srv_at σ' sp) !! R ≠ Some ∅)
    ∧ sids (srv_at σ' sp) = sids (srv_at σ sp)
    ∧ headers (srv_at σ' sp) = headers (srv_at σ sp)
    ∧ chan_at σ' = chan_at σ
    ∧ (∀ p, p ≠ sp → srv_at σ' p = srv_at σ p).
Proof.
  intros Hreach Hsrv.
  pose proof (reachable_bimap sp σ Hreach) as Hbi.
  pose proof (reachable_pruned sp σ Hreach) as Hpr.
  unfold onDisconnectCleanup. rewrite Hsrv.
  destruct (rooms (srv_at σ sp) !! c) as [byRoom|] eqn:Hc.
  - eexists. split; [reflexivity|].
    rewrite !srv_at_set_srv, !decide_True by done.
    cbn [channels rooms sids headers with_registry].
    split_and!; try done.
    + intros R. rewrite bucket_cleanup_rooms.
      case_decide as HR; [set_solver|].
      rewrite elem_of_elements in HR. intros Hin. apply HR.
      apply Hbi in Hin. by rewrite (bucket_lookup_Some _ _ _ Hc) in Hin.
    + by rewrite lookup_delete_eq.
    + intros R C HC. split; [|by rewrite lookup_delete_ne].
      rewrite bucket_cleanup_rooms. case_decide; set_solver.
    + intros R Hempty.
      by apply (pruned_cleanup_rooms c (elements byRoom) _ Hpr R ∅).
    + intros p Hp. rewrite srv_at_set_srv. by rewrite decide_False.
  - eexists. split; [reflexivity|].
    split_and!; try done.
    + intros R Hin. apply Hbi in Hin. unfold bucket in Hin.
      rewrite Hc in Hin. by apply not_elem_of_empty in Hin.
    + intros R Hempty. by apply (Hpr R ∅).
Qed.

Lemma onDisconnectCleanup_leaves_all_witness :
  reachable 1 sample_churn
  ∧ ∃ σ', onDisconnectCleanup 1 sample_churn = Some ([GoDeleteSid 1], σ')
      ∧ ∀ R, (1 : ChannelPtr)%positive ∉ bucket R (channels (srv_at σ' 1)).
Proof.
  split; [exact reachable_sample_churn|].
  destruct (onDisconnectCleanup_leaves_all 1 1 sample_churn)
    as (σ' & Hrun & Hout & _); [exact reachable_sample_churn|reflexivity|].
  exists σ'. split; [exact Hrun|exact Hout].
Defined.

(** X14: the connection hooks do not guard against a channel without a
    server: [onConnectStore], [onDisconnectCleanup] and [deleteSid] panic on
    it, where [Join] and [Leave] return [ErrorServerNotSet]. *)
Theorem detached_hooks_panic (proto : ChannelPtr → Z) (p4 : Z)
    (c : ChannelPtr) (σ : Store) :
  server (chan_at σ c) = None →
  onConnectStore proto p4 c σ = None
  ∧ onDisconnectCleanup c σ = None
  ∧ deleteSid c σ = None.
Proof.
  intros Hnil. unfold onConnectStore, onDisconnectCleanup, deleteSid.
  by rewrite Hnil.
Qed.

Lemma detached_hooks_panic_witness :
  onConnectStore (λ _, 4) 4 9 sample_room = None
  ∧ onDisconnectCleanup 9 sample_room = None
  ∧ deleteSid 9 sample_room = None.
Proof. apply (detached_hooks_panic (λ _, 4) 4 9 sample_room). reflexivity. Defined.

(** ** Broadcasts from the server *)

(** X15: [Server.BroadcastTo] starts one [Emit] for each member of the room
    that is alive, whoever called, and nothing else; none when the room has
    no bucket. *)
Theorem Server_BroadcastTo_alive_members (s : ServerPtr)
    (room method : string) (args : Value) (σ : Store) :
  let gs := Server_BroadcastTo s room method args σ in
  (∀ g, g ∈ gs ↔
     ∃ cn, g = GoEmit cn method args
           ∧ cn ∈ bucket room (channels (srv_at σ s))
           ∧ Channel_IsAlive cn σ = true)
  ∧ NoDup gs
  ∧ (channels (srv_at σ s) !! room = None → gs = []).
Proof.
  intros gs. subst gs. unfold Server_BroadcastTo, bucket.
  destruct (channels (srv_at σ s) !! room) as [roomChannels|]; simpl.
  - split_and!; [| |done].
    + intros g. rewrite elem_of_emits. setoid_rewrite elem_of_elements.
      naive_solver.
    + apply (NoDup_fmap_2 _), NoDup_filter, NoDup_elements.
  - split_and!; [|constructor|done].
    intros g. split; [by intros ?%elem_of_nil|].
    intros (cn & _ & Hcn & _). by apply not_elem_of_empty in Hcn.
Qed.

(** X16: [Server.BroadcastToAll] starts an [Emit] for a channel exactly
    when the channel is alive and stored under some sid, one per such sid;
    rooms play no part. *)
Theorem Server_BroadcastToAll_alive_sids (s : ServerPtr) (method : string)
    (args : Value) (σ : Store) :
  let gs := Server_BroadcastToAll s method args σ in
  (∀ g, g ∈ gs ↔
     ∃ sid cn, g = GoEmit cn method args
               ∧ sids (srv_at σ s) !! sid = Some cn
               ∧ Channel_IsAlive cn σ = true)
  ∧ length gs
    = length (filter (λ kv, Channel_IsAlive kv.2 σ = true)
                     (map_to_list (sids (srv_at σ s)))).
Proof.
  intros gs. subst gs. unfold Server_BroadcastToAll. split.
  - intros g. rewrite elem_of_emits. split.
    + intros (cn & -> & Halive & Hin).
      apply list_elem_of_fmap in Hin as ([sid cn'] & -> & Hin).
      apply elem_of_map_to_list in Hin. by exists sid, cn'.
    + intros (sid & cn & -> & Hsid & Halive). exists cn.
      split_and!; [done|done|].
      apply list_elem_of_fmap. exists (sid, cn).
      split; [done|]. by apply elem_of_map_to_list.
  - rewrite length_fmap.
    induction (map_to_list (sids (srv_at σ s))) as [|[sid cn] l IH]; [done|].
    rewrite fmap_cons, !filter_cons. simpl.
    destruct (decide (Channel_IsAlive cn σ = true)); simpl; by rewrite IH.
Qed.

(** X17: what [Channel.BroadcastTo] starts is part of what
    [Server.BroadcastTo] starts on the same room; when the sender is an
    alive member and no other member shares its id, the server's broadcast
    is the channel's plus one [Emit] for the sender. *)
Theorem BroadcastTo_sender_only_difference (c : ChannelPtr) (sp : ServerPtr)
    (room method : string) (args : Value) (σ : Store) :
  server (chan_at σ c) = Some sp →
  Channel_BroadcastTo c room method args σ
    ⊆+ Server_BroadcastTo sp room method args σ
  ∧ (c ∈ bucket room (channels (srv_at σ sp)) →
     Channel_IsAlive c σ = true →
     (∀ cn, cn ∈ bucket room (channels (srv_at σ sp)) →
            Channel_Id cn σ = Channel_Id c σ → cn = c) →
     Server_BroadcastTo sp room method args σ
       ≡ₚ GoEmit c method args :: Channel_BroadcastTo c room method args σ).
Proof.
  intros Hsrv. unfold Channel_BroadcastTo, Server_BroadcastTo, bucket.
  rewrite Hsrv.
  destruct (channels (srv_at σ sp) !! room) as [roomChannels|]; simpl.
  - split.
    + apply sublist_submseteq, fmap_sublist.
      rewrite <- list_filter_filter. apply sublist_filter.
    + intros Hin Halive Huniq. apply NoDup_Permutation.
      * apply (NoDup_fmap_2 _), NoDup_filter, NoDup_elements.
      * constructor.
        -- rewrite elem_of_emits. intros (cn & [= <-] & [Hid _] & _).
           by apply Hid.
        -- apply (NoDup_fmap_2 _), NoDup_filter, NoDup_elements.
      * intros g. rewrite elem_of_cons, !elem_of_emits.
        setoid_rewrite elem_of_elements. split.
        -- intros (cn & -> & Hal & Hcn).
           destruct (decide (Channel_Id cn σ = Channel_Id c σ)) as [Heq|Hne].
           ++ left. f_equal. by apply Huniq.
           ++ right. by exists cn.
        -- intros [->|(cn & -> & [_ Hal] & Hcn)]; [by exists c|by exists cn].
  - split; [done|]. intros Hin. by apply not_elem_of_empty in Hin.
Qed.

Lemma BroadcastTo_sender_only_difference_witness :
  Server_BroadcastTo 1 "r" "x" VNil sample_room
    ≡ₚ GoEmit 1 "x" VNil :: Channel_BroadcastTo 1 "r" "x" VNil sample_room.
Proof.
  destruct (BroadcastTo_sender_only_difference 1 1 "r" "x" VNil sample_room)
    as [_ Hperm]; [reflexivity|].
  apply Hperm; [by vm_compute|reflexivity|].
  intros cn Hcn Hid. apply elem_of_elements in Hcn.
  assert (Hl : elements (bucket "r" (channels (srv_at sample_room 1)))
               = [3; 4; 2; 1]%positive) by reflexivity.
  rewrite Hl, !elem_of_cons in Hcn.
  destruct Hcn as [->|[->|[->|[->|[]%elem_of_nil]]]];
    [discriminate Hid..|reflexivity].
Defined.

(** ** Response headers, in order *)

(** X18: header writes are last-write-wins per name: [AddHeader] calls under
    different names commute, a second [AddHeader] under the same name
    replaces the first, [AddHeader] under [Access-Control-Allow-Origin]
    replaces the origin set by [EnableCORS], and [EnableCORS] wipes out what
    earlier calls stored under its two names. *)
Theorem header_last_write_wins (s : ServerPtr) (n1 n2 v1 v2 d : string)
    (σ : Store) :
  (n1 ≠ n2 →
   headers (srv_at (AddHeader s n2 v2 (AddHeader s n1 v1 σ)) s)
   = headers (srv_at (AddHeader s n1 v1 (AddHeader s n2 v2 σ)) s))
  ∧ headers (srv_at (AddHeader s n1 v2 (AddHeader s n1 v1 σ)) s)
    = headers (srv_at (AddHeader s n1 v2 σ) s)
  ∧ headers (srv_at (AddHeader s "Access-Control-Allow-Origin" v1
                       (EnableCORS s d σ)) s)
      !! "Access-Control-Allow-Origin" = Some v1
  ∧ headers (srv_at (EnableCORS s d
                       (AddHeader s "Access-Control-Allow-Origin" v1
                          (AddHeader s "Access-Control-Allow-Credentials" v2
                             σ))) s)
    = headers (srv_at (EnableCORS s d σ) s)
  ∧ headers (srv_at (EnableCORS s d (EnableCORS s v1 σ)) s)
    = headers (srv_at (EnableCORS s d σ) s).
Proof.
  unfold AddHeader, EnableCORS.
  rewrite !srv_at_set_srv, !decide_True by done.
  cbn [headers with_headers].
  split_and!.
  - intros Hne. by apply insert_insert_ne.
  - apply insert_insert_eq.
  - apply lookup_insert_eq.
  - apply map_eq. intros k. rewrite !lookup_insert.
    repeat case_decide; congruence.
  - apply map_eq. intros k. rewrite !lookup_insert.
    repeat case_decide; congruence.
Qed.

Lemma header_last_write_wins_witness :
  headers (srv_at (AddHeader 1 "B" "2" (AddHeader 1 "A" "1" sample_new)) 1)
  = headers (srv_at (AddHeader 1 "A" "1" (AddHeader 1 "B" "2" sample_new)) 1).
Proof.
  destruct (header_last_write_wins 1 "A" "B" "1" "2" "d" sample_new)
    as [Hcomm _].
  apply Hcomm. discriminate.
Defined.

(** ** The open sequence, when the encoder fails *)

(** X19: when the encoder fails on the open header, [SendOpenSequence]
    panics with nothing sent; when, on a text transport, it fails on the sid
    object, the panic comes after the [0] frame has been sent, so the queue
    holds an open frame and no connect frame. *)
Theorem SendOpenSequence_panics (Marshal : Value → option string)
    (s : ServerPtr) (c : ChannelPtr) (σ : Store) :
  let hdr := header (chan_at σ c) in
  (Marshal (Header_value hdr) = None →
   SendOpenSequence Marshal s c σ = Panicked σ)
  ∧ (∀ jsonHdr,
       Marshal (Header_value hdr) = Some jsonHdr →
       BinaryMessage (tr (srv_at σ s)) = false →
       Marshal (VStruct [("sid", VString (Sid hdr))]) = None →
       ∃ σ', SendOpenSequence Marshal s c σ = Panicked σ'
         ∧ out (chan_at σ' c) = out (chan_at σ c) ++ [Frame ("0" +:+ jsonHdr)]).
Proof.
  intros hdr. subst hdr. unfold SendOpenSequence. split.
  - by intros ->.
  - intros jsonHdr -> Hbin Hsid.
    pose proof (send_frame c (Frame (protocol.OpenMsg +:+ jsonHdr)) σ)
      as (Hh1 & _ & _ & _ & Hsrv1).
    pose proof (out_send c (Frame (protocol.OpenMsg +:+ jsonHdr)) σ) as Hout1.
    revert Hh1 Hsrv1 Hout1.
    generalize (send c (Frame (protocol.OpenMsg +:+ jsonHdr)) σ).
    intros σ1 Hh1 Hsrv1 Hout1. cbv zeta.
    unfold Channel_Id. rewrite Hsrv1, Hh1, Hbin.
    fold (Sid_value (Sid (header (chan_at σ c)))) in Hsid. rewrite Hsid.
    by exists σ1.
Qed.

Lemma SendOpenSequence_panics_witness :
  SendOpenSequence (λ _, None) 1 1 sample_new = Panicked sample_new
  ∧ ∃ σ', SendOpenSequence
            (λ v, match v with
                  | VStruct [_] => None
                  | _ => Some (compact_json v)
                  end) 1 1 sample_new = Panicked σ'
      ∧ length (out (chan_at σ' 1)) = 1%nat.
Proof.
  split.
  - by apply (SendOpenSequence_panics (λ _, None) 1 1 sample_new).
  - destruct (SendOpenSequence_panics
                (λ v, match v with
                      | VStruct [_] => None
                      | _ => Some (compact_json v)
                      end) 1 1 sample_new) as [_ Hsecond].
    destruct (Hsecond _ eq_refl eq_refl eq_refl) as (σ' & Hrun & Hout).
    exists σ'. split; [exact Hrun|]. by rewrite Hout.
Defined.

Lemma SendOpenSequence_store (Marshal : Value → option string)
    (s : ServerPtr) (c : ChannelPtr) (σ : Store) :
  let σ' := store_of (SendOpenSequence Marshal s c σ) in
  srv_at σ' = srv_at σ
  ∧ (∀ c', c' ≠ c → chan_at σ' c' = chan_at σ c')
  ∧ header (chan_at σ' c) = header (chan_at σ c)
  ∧ server (chan_at σ' c) = server (chan_at σ c)
  ∧ alive (chan_at σ' c) = alive (chan_at σ c)
  ∧ ∃ new, out (chan_at σ' c) = out (chan_at σ c) ++ new
           ∧ (length new ≤ 2)%nat.
Proof.
  intros σ'. subst σ'. unfold SendOpenSequence.
  destruct (Marshal (Header_value (header (chan_at σ c)))) as [jsonHdr|];
    [|simpl; split_and!; try done; exists [];
      split; [by rewrite app_nil_r|simpl; lia]].
  pose proof (send_frame c (Frame (protocol.OpenMsg +:+ jsonHdr)) σ)
    as (Hh1 & Hs1 & Ha1 & Ho1 & Hsrv1).
  pose proof (out_send c (Frame (protocol.OpenMsg +:+ jsonHdr)) σ) as Hout1.
  revert Hh1 Hs1 Ha1 Ho1 Hsrv1 Hout1.
  generalize (send c (Frame (protocol.OpenMsg +:+ jsonHdr)) σ).
  intros σ1 Hh1 Hs1 Ha1 Ho1 Hsrv1 Hout1. cbv zeta.
  assert (Hone : ∀ item,
    srv_at (send c item σ1) = srv_at σ
    ∧ (∀ c', c' ≠ c → chan_at (send c item σ1) c' = chan_at σ c')
    ∧ header (chan_at (send c item σ1) c) = header (chan_at σ c)
    ∧ server (chan_at (send c item σ1) c) = server (chan_at σ c)
    ∧ alive (chan_at (send c item σ1) c) = alive (chan_at σ c)
    ∧ ∃ new, out (chan_at (send c item σ1) c) = out (chan_at σ c) ++ new
             ∧ (length new ≤ 2)%nat).
  { intros item.
    destruct (send_frame c item σ1) as (Hh2 & Hs2 & Ha2 & Ho2 & Hsrv2).
    split_and!; try congruence.
    - intros c' Hc'. by rewrite Ho2, Ho1.
    - eexists [_; _]. rewrite out_send, Hout1, <- app_assoc.
      split; [reflexivity|simpl; lia]. }
  destruct (BinaryMessage (tr (srv_at σ1 s))); [apply Hone|].
  destruct (Marshal (Sid_value (Channel_Id c σ1))); [apply Hone|].
  simpl. split_and!; try done. eexists [_].
  split; [by rewrite Hout1|simpl; lia].
Qed.

(** X20: however [SendOpenSequence] ends, it has changed no server and no
    other channel, it has left the header, the server reference and the alive
    flag of its channel alone, and what was on the queue before is still
    there, in front, followed by at most two new items. *)
Theorem SendOpenSequence_only_appends (Marshal : Value → option string)
    (s : ServerPtr) (c : ChannelPtr) (σ : Store) :
  let σ' := store_of (SendOpenSequence Marshal s c σ) in
  srv_at σ' = srv_at σ
  ∧ (∀ c', c' ≠ c → chan_at σ' c' = chan_at σ c')
  ∧ header (chan_at σ' c) = header (chan_at σ c)
  ∧ server (chan_at σ' c) = server (chan_at σ c)
  ∧ alive (chan_at σ' c) = alive (chan_at σ c)
  ∧ ∃ new, out (chan_at σ' c) = out (chan_at σ c) ++ new
           ∧ (length new ≤ 2)%nat.
Proof. apply SendOpenSequence_store. Qed.

Lemma SendOpenSequence_binary (Marshal : Value → option string)
    (s : ServerPtr) (c : ChannelPtr) (σ : Store) (jsonHdr : string) :
  BinaryMessage (tr (srv_at σ s)) = true →
  Marshal (Header_value (header (chan_at σ c))) = Some jsonHdr →
  ∃ σ', SendOpenSequence Marshal s c σ = Returned σ'
    ∧ out (chan_at σ' c) = out (chan_at σ c) ++
        [Frame ("0" +:+ jsonHdr);
         Pack {| protocol.Type_ := 0;
                 protocol.Data :=
                   VStruct [("sid", VString (Sid (header (chan_at σ c))))];
                 protocol.Nsp := "/";
                 protocol.Id := 0 |}].
Proof.
  intros Hbin Hhdr. unfold SendOpenSequence. rewrite Hhdr.
  pose proof (send_frame c (Frame (protocol.OpenMsg +:+ jsonHdr)) σ)
    as (Hh1 & _ & _ & _ & Hsrv1).
  pose proof (out_send c (Frame (protocol.OpenMsg +:+ jsonHdr)) σ) as Hout1.
  revert Hh1 Hsrv1 Hout1.
  generalize (send c (Frame (protocol.OpenMsg +:+ jsonHdr)) σ).
  intros σ1 Hh1 Hsrv1 Hout1. cbv zeta.
  unfold Channel_Id. rewrite Hsrv1, Hh1, Hbin.
  eexists. split; [reflexivity|].
  by rewrite out_send, Hout1, <- app_assoc.
Qed.

(** X21: after [UpdateTransport] to a binary transport, [SendOpenSequence]
    needs the encoder for the header only: it returns having sent the [0]
    frame and the [CONNECT] record, whatever the encoder would make of the
    sid object; the update itself leaves rooms, sids and headers alone. *)
Theorem UpdateTransport_switches_mode (Marshal : Value → option string)
    (s : ServerPtr) (t : Transport) (c : ChannelPtr) (σ : Store)
    (jsonHdr : string) :
  let hdr := header (chan_at σ c) in
  let σ1 := UpdateTransport s t σ in
  BinaryMessage t = true →
  Marshal (Header_value hdr) = Some jsonHdr →
  (∃ σ', SendOpenSequence Marshal s c σ1 = Returned σ'
     ∧ out (chan_at σ' c) = out (chan_at σ c) ++
         [Frame ("0" +:+ jsonHdr);
          Pack {| protocol.Type_ := 0;
                  protocol.Data := VStruct [("sid", VString (Sid hdr))];
                  protocol.Nsp := "/";
                  protocol.Id := 0 |}])
  ∧ channels (srv_at σ1 s) = channels (srv_at σ s)
  ∧ rooms (srv_at σ1 s) = rooms (srv_at σ s)
  ∧ sids (srv_at σ1 s) = sids (srv_at σ s)
  ∧ headers (srv_at σ1 s) = headers (srv_at σ s)
  ∧ chan_at σ1 = chan_at σ.
Proof.
  intros hdr σ1 Hbin Hhdr. subst hdr σ1.
  split; [|unfold UpdateTransport;
           rewrite !srv_at_set_srv, !decide_True by done; by split_and!].
  destruct (SendOpenSequence_binary Marshal s c (UpdateTransport s t σ)
              jsonHdr) as (σ' & Hrun & Hout); [|exact Hhdr|].
  - unfold UpdateTransport. by rewrite srv_at_set_srv, decide_True.
  - exists σ'. split; [exact Hrun|exact Hout].
Qed.

Lemma UpdateTransport_switches_mode_witness :
  ∃ σ', SendOpenSequence
          (λ v, match v with
                | VStruct [_] => None
                | _ => Some (compact_json v)
                end) 1 1
          (UpdateTransport 1 {| BinaryMessage := true |} sample_new)
        = Returned σ'
    ∧ length (out (chan_at σ' 1)) = 2%nat.
Proof.
  destruct (UpdateTransport_switches_mode
              (λ v, match v with
                    | VStruct [_] => None
                    | _ => Some (compact_json v)
                    end) 1 {| BinaryMessage := true |} 1 sample_new
              (compact_json (Header_value (header (sample_channel 1)))))
    as ((σ' & Hrun & Hout) & _); [reflexivity|reflexivity|].
  exists σ'. split; [exact Hrun|]. by rewrite Hout.
Defined.

(** ** Session ids *)

Lemma encode_at_url_safe (i : N) : url_safe (encode_at (N.land i 63)).
Proof.
  assert (Hlt : (N.land i 63 < 64)%N).
  { change 63%N with (N.ones 6). rewrite N.land_ones.
    apply N.mod_upper_bound. discriminate. }
  generalize dependent (N.land i 63). intros j Hj.
  rewrite <- (N2Nat.id j).
  assert (Hk : (N.to_nat j < 64)%nat) by lia.
  clear Hj. generalize dependent (N.to_nat j). intros k Hk.
  do 64 (destruct k as [|k];
         [unfold url_safe; apply (bool_decide_unpack _); by vm_compute|]).
  lia.
Qed.

(** X22: for a 16-byte digest [generateNewId] returns, without panicking,
    a string of exactly 20 characters, each a letter, a digit, [-] or [_];
    it is the URL-safe base64 text of the first 15 bytes of the digest, so
    there is no padding in it and the last byte of the digest plays no
    part. *)
Theorem generateNewId_format (md5_Sum : string → list Byte.byte)
    (custom now : string) (r1 r2 : N) :
  (∀ s, length (md5_Sum s) = 16%nat) →
  ∃ id, generateNewId md5_Sum custom now r1 r2 = Some id
    ∧ String.length id = 20%nat
    ∧ Forall url_safe (String.list_ascii_of_string id)
    ∧ id = base64_encode
             (take 15 (md5_Sum (custom +:+ " " +:+ now +:+ " " +:+ pretty r1
                                +:+ " " +:+ pretty r2))).
Proof.
  intros Hlen. unfold generateNewId.
  specialize (Hlen (custom +:+ " " +:+ now +:+ " " +:+ pretty r1
                    +:+ " " +:+ pretty r2)).
  revert Hlen.
  generalize (md5_Sum (custom +:+ " " +:+ now +:+ " " +:+ pretty r1
                       +:+ " " +:+ pretty r2)).
  intros sum Hlen.
  do 17 (destruct sum as [|? sum]; try discriminate Hlen).
  cbn [base64_encode String.length].
  rewrite decide_True by lia.
  cbn [String.substring take]. eexists. split; [reflexivity|].
  split; [reflexivity|]. split; [|reflexivity].
  cbn [String.list_ascii_of_string].
  repeat (apply List.Forall_cons; [apply encode_at_url_safe|]).
  apply List.Forall_nil.
Qed.

Lemma generateNewId_format_witness :
  generateNewId (λ _, replicate 16 Byte.xff) "10.0.0.1:4040" "now" 7 9
  = Some "____________________".
Proof.
  destruct (generateNewId_format (λ _, replicate 16 Byte.xff)
              "10.0.0.1:4040" "now" 7 9) as (id & Hrun & _ & _ & ->);
    [reflexivity|].
  exact Hrun.
Defined.

(** ** More examples on the small configuration *)

Lemma connected_sample_connected : connected 1 sample_connected.
Proof.
  apply (conn_Store 1 sample_new (λ _, 4) 4 2 [GoSchedulePing 2]).
  - by apply (conn_NewServer _ _ {| BinaryMessage := false |}).
  - reflexivity.
Defined.

Lemma deleteSid_unregisters_witness :
  GetChannel 1 "s2" sample_connected = (Some 2%positive, None)
  ∧ ∃ σ', deleteSid 2 sample_connected = Some σ'
      ∧ GetChannel 1 "s2" σ' = (None, Some ErrorConnectionNotFound).
Proof.
  split; [reflexivity|].
  destruct (deleteSid_unregisters 2 1 sample_connected)
    as (σ' & Hrun & Hget & _); [reflexivity|].
  exists σ'. split; [exact Hrun|exact Hget].
Defined.

Lemma GetChannel_returns_its_sid_witness :
  connected 1 sample_connected
  ∧ GetChannel 1 "s2" sample_connected = (Some 2%positive, None)
  ∧ Channel_Id 2 sample_connected = "s2".
Proof.
  split; [exact connected_sample_connected|]. split; [reflexivity|].
  apply (GetChannel_returns_its_sid 1 sample_connected "s2" 2);
    [exact connected_sample_connected|reflexivity].
Defined.

Lemma List_lists_members_witness :
  Server_Amount 1 "r" sample_room
    = Z.of_nat (length (Server_List 1 "r" sample_room))
  ∧ Server_List 1 "nobody" sample_room = []
  ∧ Server_Amount 1 "nobody" sample_room = 0.
Proof.
  destruct (List_lists_members 1 "r" sample_room) as (_ & _ & Hlen & _).
  destruct (List_lists_members 1 "nobody" sample_room) as (_ & _ & _ & Hnone).
  split; [exact Hlen|]. apply Hnone. reflexivity.
Defined.

Lemma Server_BroadcastTo_alive_members_witness :
  NoDup (Server_BroadcastTo 1 "r" "x" VNil sample_room)
  ∧ Server_BroadcastTo 1 "nobody" "x" VNil sample_room = [].
Proof.
  destruct (Server_BroadcastTo_alive_members 1 "r" "x" VNil sample_room)
    as (_ & Hnodup & _).
  destruct (Server_BroadcastTo_alive_members 1 "nobody" "x" VNil sample_room)
    as (_ & _ & Hnone).
  split; [exact Hnodup|]. apply Hnone. reflexivity.
Defined.

Lemma SendOpenSequence_only_appends_witness :
  chan_at (store_of (SendOpenSequence (λ _, None) 1 1 sample_room)) 2
  = chan_at sample_room 2.
Proof.
  destruct (SendOpenSequence_only_appends (λ _, None) 1 1 sample_room)
    as (_ & Hother & _).
  apply Hother. discriminate.
Defined.

Example BroadcastToAll_sample :
  Server_BroadcastToAll 1 "x" VNil sample_connected = [GoEmit 2 "x" VNil].
Proof. reflexivity. Qed.

Example Server_BroadcastTo_sample :
  Server_BroadcastTo 1 "r" "x" VNil sample_room
  = [GoEmit 3 "x" VNil; GoEmit 2 "x" VNil; GoEmit 1 "x" VNil].
Proof. reflexivity. Qed.

(** ** The invariants under every call *)

Lemma keeps_registry_refl sp σ : keeps_registry sp σ σ.
Proof. by split. Qed.

Lemma keeps_sids_refl sp σ : keeps_sids sp σ σ.
Proof. by split. Qed.

Lemma set_srv_keeps_sids sp p s σ :
  sids s = sids (srv_at σ p) → keeps_sids sp σ (set_srv p s σ).
Proof.
  intros Hs. split; [|done]. rewrite srv_at_set_srv.
  case_decide; [by subst|done].
Qed.

Lemma set_srv_keeps_registry sp p s σ :
  channels s = channels (srv_at σ p) → rooms s = rooms (srv_at σ p) →
  keeps_registry sp σ (set_srv p s σ).
Proof.
  intros Hc Hr. unfold keeps_registry. rewrite srv_at_set_srv.
  case_decide; [by subst|done].
Qed.

Lemma registry_calls_keep_sids sp σ k :
  match k with
  | CallJoin _ _ | CallLeave _ _ | CallDisconnectCleanup _
  | CallEnableCORS _ _ | CallAddHeader _ _ _ | CallUpdateTransport _ _
  | CallSendOpenSequence _ _ _ => keeps_sids sp σ (after_call σ k)
  | CallDeleteSid _ | CallConnectStore _ _ _ => True
  end.
Proof.
  destruct k as [c room|c room|c|c|proto p4 c|s d|s n v|s t|M s c];
    cbn [after_call]; try done.
  - unfold Channel_Join. destruct (server (chan_at σ c));
      [by apply set_srv_keeps_sids|apply keeps_sids_refl].
  - unfold Channel_Leave. destruct (server (chan_at σ c));
      [by apply set_srv_keeps_sids|apply keeps_sids_refl].
  - unfold onDisconnectCleanup.
    destruct (server (chan_at σ c)) as [sp'|]; [|apply keeps_sids_refl].
    destruct (rooms (srv_at σ sp') !! c);
      [by apply set_srv_keeps_sids|apply keeps_sids_refl].
  - by apply set_srv_keeps_sids.
  - by apply set_srv_keeps_sids.
  - by apply set_srv_keeps_sids.
  - destruct (SendOpenSequence_store M s c σ) as (Hsrv & Hother & Hhdr & _).
    split; [by rewrite Hsrv|].
    intros c'. destruct (decide (c' = c)) as [->|Hc']; [done|].
    by rewrite Hother.
Qed.

Lemma other_calls_keep_registry sp σ k :
  match k with
  | CallJoin _ _ | CallLeave _ _ | CallDisconnectCleanup _ => True
  | _ => keeps_registry sp σ (after_call σ k)
  end.
Proof.
  destruct k as [c room|c room|c|c|proto p4 c|s d|s n v|s t|M s c];
    cbn [after_call]; try done.
  - unfold deleteSid. destruct (server (chan_at σ c));
      [by apply set_srv_keeps_registry|apply keeps_registry_refl].
  - unfold onConnectStore. destruct (server (chan_at σ c));
      [by apply set_srv_keeps_registry|apply keeps_registry_refl].
  - by apply set_srv_keeps_registry.
  - by apply set_srv_keeps_registry.
  - by apply set_srv_keeps_registry.
  - destruct (SendOpenSequence_store M s c σ) as (Hsrv & _).
    unfold keeps_registry. by rewrite Hsrv.
Qed.

Lemma after_call_invariants sp σ k :
  bimap (srv_at σ sp) ∧ pruned (srv_at σ sp) ∧ sids_by_id sp σ →
  bimap (srv_at (after_call σ k) sp) ∧ pruned (srv_at (after_call σ k) sp)
  ∧ sids_by_id sp (after_call σ k).
Proof.
  intros (Hbi & Hpr & Hsid).
  pose proof (registry_calls_keep_sids sp σ k) as Hks.
  pose proof (other_calls_keep_registry sp σ k) as Hkr.
  assert (Hframe : keeps_registry sp σ (after_call σ k) →
            bimap (srv_at (after_call σ k) sp)
            ∧ pruned (srv_at (after_call σ k) sp)).
  { intros [Hc Hr]. unfold bimap, pruned. rewrite Hc, Hr. by split. }
  destruct k as [c room|c room|c|c|proto p4 c|s d|s n v|s t|M s c].
  - split_and!; [by apply bimap_Join|by apply pruned_Join
                 |by apply (keeps_sids_by_id sp σ)].
  - split_and!; [by apply bimap_Leave|by apply pruned_Leave
                 |by apply (keeps_sids_by_id sp σ)].
  - split_and!; [| |by apply (keeps_sids_by_id sp σ)]; cbn [after_call].
    + destruct (onDisconnectCleanup c σ) as [[gs σ']|] eqn:Hc; [|done].
      by apply (bimap_Cleanup sp c σ gs σ').
    + destruct (onDisconnectCleanup c σ) as [[gs σ']|] eqn:Hc; [|done].
      by apply (pruned_Cleanup sp c σ gs σ').
  - destruct (Hframe Hkr) as [? ?]. split_and!; try done.
    cbn [after_call]. destruct (deleteSid c σ) as [σ'|] eqn:Hc; [|done].
    apply (sids_by_id_step sp σ σ'); [done|]. right. by exists c.
  - destruct (Hframe Hkr) as [? ?]. split_and!; try done.
    cbn [after_call].
    destruct (onConnectStore proto p4 c σ) as [[ps σ']|] eqn:Hc; [|done].
    apply (sids_by_id_step sp σ σ'); [done|]. left. by exists proto, p4, c, ps.
  - destruct (Hframe Hkr) as [? ?]. split_and!; try done.
    by apply (keeps_sids_by_id sp σ).
  - destruct (Hframe Hkr) as [? ?]. split_and!; try done.
    by apply (keeps_sids_by_id sp σ).
  - destruct (Hframe Hkr) as [? ?]. split_and!; try done.
    by apply (keeps_sids_by_id sp σ).
  - destruct (Hframe Hkr) as [? ?]. split_and!; try done.
    by apply (keeps_sids_by_id sp σ).
Qed.

(** X23: whatever calls follow [NewServer], in whatever order and on
    whatever servers and channels ([Join], [Leave], [onDisconnectCleanup],
    [deleteSid], [onConnectStore], [EnableCORS], [AddHeader],
    [UpdateTransport], [SendOpenSequence]), the server keeps its three
    invariants: a channel is in a room's bucket exactly when the room is in
    the channel's set, no room has an empty bucket, and every sid resolves
    to a channel with that id. *)
Theorem invariants_under_all_calls (sp : ServerPtr) (t : Transport)
    (σ0 : Store) (ks : list call) :
  srv_at σ0 sp = NewServer t →
  let σ := run_calls ks σ0 in
  (∀ (R : string) (C : ChannelPtr),
     C ∈ bucket R (channels (srv_at σ sp)) ↔ R ∈ bucket C (rooms (srv_at σ sp)))
  ∧ (∀ R : string, channels (srv_at σ sp) !! R ≠ Some ∅)
  ∧ (∀ (sid : string) (c : ChannelPtr),
       GetChannel sp sid σ = (Some c, None) → Channel_Id c σ = sid).
Proof.
  intros Hnew σ. subst σ.
  assert (Hinv : bimap (srv_at (run_calls ks σ0) sp)
                 ∧ pruned (srv_at (run_calls ks σ0) sp)
                 ∧ sids_by_id sp (run_calls ks σ0)).
  { unfold run_calls. induction ks as [|k ks IH] using rev_ind.
    - simpl. unfold sids_by_id. rewrite Hnew. split_and!;
        [apply bimap_NewServer|apply pruned_NewServer|].
      intros sid c. simpl. by rewrite lookup_empty.
    - rewrite foldl_app. simpl. by apply after_call_invariants. }
  destruct Hinv as (Hbi & Hpr & Hsid). split_and!.
  - exact Hbi.
  - intros R Hb. by apply (Hpr R ∅).
  - intros sid c. unfold GetChannel.
    destruct (sids (srv_at (run_calls ks σ0) sp) !! sid) as [c'|] eqn:Hl;
      [|done].
    intros [= <-]. by apply Hsid.
Qed.

Lemma invariants_under_all_calls_witness :
  let σ := run_calls [CallJoin 1 "r"; CallJoin 2 "r";
                      CallConnectStore (λ _, 4) 4 1;
                      CallEnableCORS 1 "https://example.org";
                      CallSendOpenSequence (λ v, Some (compact_json v)) 1 1;
                      CallLeave 1 "r"; CallDisconnectCleanup 2;
                      CallDeleteSid 2] sample_new in
  srv_at sample_new 1 = NewServer {| BinaryMessage := false |}
  ∧ channels (srv_at σ 1) = ∅
  ∧ (∀ (sid : string) (c : ChannelPtr),
       GetChannel 1 sid σ = (Some c, None) → Channel_Id c σ = sid).
Proof.
  split; [reflexivity|]. split; [by vm_compute|].
  apply (invariants_under_all_calls 1 {| BinaryMessage := false |} sample_new).
  reflexivity.
Defined.
